(** * Audio ingestion pipeline ([audio_processing.py])

    A shallow embedding of the batch pipeline: link discovery, the energy
    classifier, the object-store upload, the BigQuery upsert and the
    module-level driver loop, together with the properties the written
    specification states about them.

    Conventions of the embedding.
    - Python [int] is [Z]; Python [float] is an IEEE-754 binary64 value,
      represented by the Standard Library's [spec_float] (zeros, infinities,
      NaN, finite [(-1)^s * m * 2^e]), compared with [SFcompare].
    - Python [str] and [bytes] are [string].
    - A dictionary or a store is a [gmap]; the list made of a [set(...)]
      has the members of the set, each once, in an order the interpreter
      chooses.
    - Code with effects runs in a state-and-exception monad [M] over the
      record [World]; the collaborators the program calls but does not
      define (HTTP, the HTML parser, the audio decoder, the storage URL
      scheme, the credentials and the clients built from them, the
      opening of a local file, the iteration order of a set) are the
      fields of the class [Collaborators].
    - The object store and the table store are taken to answer every
      request of a client that could be built. The table store carries
      out the write jobs it was handed in the order it received them, each
      at a time of its own choosing: a job the program started is
      [pending] until the store has applied it. *)

From Stdlib Require Import ZArith String Ascii Bool Lia.
From Stdlib Require Import Floats.SpecFloat Floats.PrimFloat Floats.FloatOps.
From stdpp Require Import gmap strings list pretty.

Set Warnings "-inexact-float".
Open Scope Z_scope.

(* ===================================================================== *)
(** * Floats *)
(* ===================================================================== *)

Module PyFloat.

(** [x <= y] and [x > y] on Python floats: every comparison with a NaN
    operand is false. *)
Definition le (x y : spec_float) : bool := SFleb x y.
Definition gt (x y : spec_float) : bool := SFltb y x.

(** The literals the program and its specification mention. The integer
    literal [-20] is compared with a float; it is exactly representable,
    so the comparison is the one with the float [-20.0]. *)
Definition minus_20 : spec_float := Eval vm_compute in Prim2SF (-20)%float.
Definition minus_19_9 : spec_float := Eval vm_compute in Prim2SF (-19.9)%float.
Definition neg_infinity : spec_float := S754_infinity true.
Definition nan : spec_float := S754_nan.

(** The floats of the binary64 format. *)
Definition valid (x : spec_float) : bool := valid_binary 53 1024 x.

(** The value of a zero or finite float, times [2^1074]; an integer, since
    no exponent of the format is below [-1074]. *)
Definition scaled (x : spec_float) : option Z :=
  match x with
  | S754_zero _ => Some 0
  | S754_finite s m e => Some ((if s then -1 else 1) * Zpos m * 2 ^ (e + 1074))
  | S754_infinity _ | S754_nan => None
  end.

End PyFloat.

(* ===================================================================== *)
(** * The classifier *)
(* ===================================================================== *)

(** The three labels, as the strings the function returns. *)
Definition HighEnergy : string := "High Energy".
Definition LowEnergy : string := "Low Energy".
Definition MediumEnergy : string := "Medium Energy".

Definition labels : list string := [HighEnergy; LowEnergy; MediumEnergy].

(** [classify_audio(duration_ms, loudness)], lines 67-83. *)
Definition classify_audio (duration_ms : Z) (loudness : spec_float) : string :=
  if (duration_ms <? 60000) && PyFloat.gt loudness PyFloat.minus_20 then
    HighEnergy
  else if (duration_ms >=? 60000) && PyFloat.le loudness PyFloat.minus_20 then
    LowEnergy
  else
    MediumEnergy.


(* ===================================================================== *)
(** * Strings *)
(* ===================================================================== *)

Module PyStr.

(** [c.lower()] on one character. Only the ASCII capitals change. For a
    non-ASCII code point Python's [lower] yields non-ASCII text, with two
    exceptions (the Kelvin sign gives [k], the dotted capital I gives [i]
    and a combining dot), neither of which is a letter of an audio
    extension; the suffix tests below are therefore the same under this
    byte-wise version. *)
Definition lower_ascii (c : ascii) : ascii :=
  let n := N_of_ascii c in
  if ((65 <=? n) && (n <=? 90))%N then ascii_of_N (n + 32) else c.

(** [s.lower()] *)
Fixpoint lower (s : string) : string :=
  match s with
  | EmptyString => EmptyString
  | String c s' => String (lower_ascii c) (lower s')
  end.

(** [s.endswith(suffix)]: some tail of [s] is [suffix]. *)
Fixpoint endswith (s suffix : string) : bool :=
  String.eqb s suffix ||
  match s with
  | EmptyString => false
  | String _ s' => endswith s' suffix
  end.

(** [s.split(sep)] for a one-character separator; [cur] holds, reversed,
    the characters of the field being read. *)
Fixpoint split_go (sep : ascii) (cur s : string) : list string :=
  match s with
  | EmptyString => [String.rev cur]
  | String c s' =>
      if Ascii.eqb c sep then String.rev cur :: split_go sep EmptyString s'
      else split_go sep (String c cur) s'
  end.

Definition split (sep : ascii) (s : string) : list string :=
  split_go sep EmptyString s.

(** [os.path.basename(p)]: what follows the last ["/"], the whole of [p]
    when there is none. *)
Fixpoint basename_go (cur p : string) : string :=
  match p with
  | EmptyString => String.rev cur
  | String c p' =>
      if Ascii.eqb c "/" then basename_go EmptyString p'
      else basename_go (String c cur) p'
  end.

Definition basename (p : string) : string := basename_go EmptyString p.

End PyStr.

(* ===================================================================== *)
(** * The world the program acts on *)
(* ===================================================================== *)

(** One row of the table: the five required fields of the schema
    (lines 110-116). *)
Record AudioRecord := mkAudioRecord {
  gcp_url : string;
  file_name : string;
  duration_ms : Z;
  loudness : spec_float;
  classification : string
}.

(** A table is identified by project, dataset and table name. Rows are
    kept in a list: the table has no key and may hold equal rows. *)
Abbreviation TableRef := (string * string * string)%type.

(** A write the program has handed to the table store: the statement of
    lines 127-139 with its parameters. [client.query] only starts the job
    (line 150); the store carries it out later, and the program never
    asks for its result. *)
Inductive Job :=
| InsertJob (table_id : string) (row : AudioRecord)
| UpdateJob (table_id : string) (row : AudioRecord).

Record World := mkWorld {
  environ : gmap string string;            (** [os.environ] *)
  files : gmap string string;              (** local files, by path *)
  objects : gmap (string * string) string; (** stored objects, by bucket and name *)
  tables : gmap TableRef (list AudioRecord);
                                           (** the tables as a query reads them *)
  pending : list Job;                      (** jobs started and not yet carried
                                               out, oldest first *)
  stdout : list string                     (** lines printed so far *)
}.

Definition set_environ (f : gmap string string -> gmap string string)
    (w : World) : World :=
  mkWorld (f (environ w)) (files w) (objects w) (tables w) (pending w)
          (stdout w).
Definition set_files (f : gmap string string -> gmap string string)
    (w : World) : World :=
  mkWorld (environ w) (f (files w)) (objects w) (tables w) (pending w)
          (stdout w).
Definition set_objects
    (f : gmap (string * string) string -> gmap (string * string) string)
    (w : World) : World :=
  mkWorld (environ w) (files w) (f (objects w)) (tables w) (pending w)
          (stdout w).
Definition set_tables
    (f : gmap TableRef (list AudioRecord) -> gmap TableRef (list AudioRecord))
    (w : World) : World :=
  mkWorld (environ w) (files w) (objects w) (f (tables w)) (pending w)
          (stdout w).
Definition set_pending (f : list Job -> list Job) (w : World) : World :=
  mkWorld (environ w) (files w) (objects w) (tables w) (f (pending w))
          (stdout w).
Definition set_stdout (f : list string -> list string) (w : World) : World :=
  mkWorld (environ w) (files w) (objects w) (tables w) (pending w)
          (f (stdout w)).

(** The exceptions that can leave a function of the program. *)
Inductive exn :=
| TypeError_missing (callee : string) (missing : list string)
    (** a call with too few positional arguments *)
| TypeError_extra (callee : string)
    (** a call with too many positional arguments *)
| TypeError_value
    (** an argument of a type the callee cannot use *)
| IndexError
| RequestException (url : string)
| FileNotFoundError (path : string)
| OSError (path : string)
    (** [open] could not create the file *)
| DefaultCredentialsError
    (** no client could be built from the credentials file *)
| CouldntDecodeError (path : string)
| NotFound (table : string)
| BadRequest (table : string).

Definition is_TypeError (e : exn) : bool :=
  match e with
  | TypeError_missing _ _ | TypeError_extra _ | TypeError_value => true
  | _ => false
  end.

(** ** State and exceptions *)

Definition M (A : Type) : Type := World -> World * (exn + A).

Definition ret {A} (a : A) : M A := fun w => (w, inr a).
Definition raise {A} (e : exn) : M A := fun w => (w, inl e).
Definition bind {A B} (m : M A) (k : A -> M B) : M B :=
  fun w =>
    match m w with
    | (w', inr a) => k a w'
    | (w', inl e) => (w', inl e)
    end.

Notation "x <- m ;; k" := (bind m (fun x => k))
  (at level 100, m at next level, right associativity).
Notation "m ;; k" := (bind m (fun _ => k))
  (at level 100, right associativity).

Definition get_world : M World := fun w => (w, inr w).
Definition modify (f : World -> World) : M unit := fun w => (f w, inr tt).

(** [try: body except: handler] with a bare [except]: every exception of
    [body] is caught, and [handler] runs in the world [body] left. *)
Definition try_except {A} (body handler : M A) : M A :=
  fun w =>
    match body w with
    | (w', inr a) => (w', inr a)
    | (w', inl _) => handler w'
    end.

(** [for x in xs: body]: the first exception ends the loop. *)
Fixpoint for_each {A} (xs : list A) (body : A -> M unit) : M unit :=
  match xs with
  | [] => ret tt
  | x :: xs' => body x ;; for_each xs' body
  end.

(** [xs[i]] *)
Definition index {A} (xs : list A) (i : nat) : M A :=
  match xs !! i with
  | Some x => ret x
  | None => raise IndexError
  end.

(** ** Collaborators

    What the program imports and calls. [requests.get] either raises or
    returns a response; the HTML parser lists the [href] of every anchor
    that has one, in document order; the decoder either raises or returns
    the segment, of which the program reads [len] and [dBFS]; a client of
    a Google service is built from the credentials file, or its
    construction raises; the operating system opens a file for writing,
    or refuses (a name too long, a directory of that name); the
    interpreter lists a set in an order of its own, which depends on the
    hash seed of the process and on the insertions that built the set. *)

Record Response := mkResponse {
  status_code : Z;
  text : string;
  content : string
}.

Record AudioSegment := mkAudioSegment {
  len : Z;
  dBFS : spec_float
}.

Class Collaborators := {
  (** [requests.get(url)]; [None] when it raises *)
  requests_get : string -> option Response;
  (** [[link['href'] for link in BeautifulSoup(text, 'html.parser').find_all('a', href=True)]] *)
  find_all_a_href : string -> list string;
  (** [AudioSegment.from_file(path)] on the bytes of the file; [None]
      when it raises *)
  from_file : string -> string -> option AudioSegment;
  (** [bucket.blob(name).public_url] *)
  public_url : string -> string -> string;
  (** whether [storage.Client()] and [bigquery.Client()] can be built
      from a credentials file; they raise otherwise *)
  client_loads : string -> bool;
  (** the project of the client built from a credentials file *)
  client_project : string -> string;
  (** whether [open(path, 'wb')] succeeds *)
  can_open : string -> bool;
  (** [list(set(xs))]: the members of [xs], each once, in the order in
      which the interpreter iterates over the set built from [xs] *)
  set_iteration : list string -> list string;
  set_iteration_NoDup : forall xs, NoDup (set_iteration xs);
  set_iteration_elem : forall xs x, x ∈ set_iteration xs <-> x ∈ xs
}.

(** ** Local files, [print], [os.environ] *)

Definition print (line : string) : M unit :=
  modify (set_stdout (fun out => out ++ [line])).

Definition environ_set (name val : string) : M unit :=
  modify (set_environ (insert name val)).

(** [open(path, 'wb')] followed by [write(data)] (lines 178-179): when
    the file cannot be opened, [open] raises and no file is written. *)
Definition write_file `{Collaborators} (path data : string) : M unit :=
  if can_open path then modify (set_files (insert path data))
  else raise (OSError path).

(** reading a local file that must exist *)
Definition read_file (path : string) : M string :=
  w <- get_world ;;
  match files w !! path with
  | Some data => ret data
  | None => raise (FileNotFoundError path)
  end.

(** [os.remove(path)] *)
Definition os_remove (path : string) : M unit :=
  w <- get_world ;;
  match files w !! path with
  | Some _ => modify (set_files (delete path))
  | None => raise (FileNotFoundError path)
  end.


(* ===================================================================== *)
(** * The functions of the program *)
(* ===================================================================== *)

Section Program.
Context {C : Collaborators}.

Definition http_get (url : string) : M Response :=
  match requests_get url with
  | Some response => ret response
  | None => raise (RequestException url)
  end.

(** ** Link discovery (lines 8-28) *)

Definition audio_extensions : list string :=
  [".mp3"; ".wav"; ".ogg"; ".flac"; ".aac"].

(** [any(href.lower().endswith(ext) for ext in audio_extensions)] *)
Definition is_audio_link (href : string) : bool :=
  existsb (PyStr.endswith (PyStr.lower href)) audio_extensions.

(** Lines 23-25: the audio links among [all_links], through a set:
    [list(set(audio_links))]. *)
Definition unique_audio_links (all_links : list string) : list string :=
  let audio_links := List.filter is_audio_link all_links in
  set_iteration audio_links.

Definition find_audio_links (url : string) : M (list string) :=
  response <- http_get url ;;
  if status_code response =? 200 then
    let all_links := find_all_a_href (text response) in
    ret (unique_audio_links all_links)
  else
    print ("Error: Unable to fetch content from " +:+ url +:+
           ". Status code: " +:+ pretty (status_code response)) ;;
    ret [].

(** ** Upload (lines 29-48) *)

Definition GOOGLE_APPLICATION_CREDENTIALS : string :=
  "GOOGLE_APPLICATION_CREDENTIALS".

(** [storage.Client()] and [bigquery.Client()] (lines 44 and 104): the
    client is built from the credentials file the environment variable
    names; the result here is its project. When no client can be built
    from that file the constructor raises. *)
Definition client_of_environ : M string :=
  w <- get_world ;;
  let key_file :=
    default "" (environ w !! GOOGLE_APPLICATION_CREDENTIALS) in
  if client_loads key_file then ret (client_project key_file)
  else raise DefaultCredentialsError.

Definition upload_to_gcp_storage
    (key_file_path bucket_name local_file_path remote_file_name : string)
    : M string :=
  environ_set GOOGLE_APPLICATION_CREDENTIALS key_file_path ;;
  storage_client <- client_of_environ ;;
  data <- read_file local_file_path ;;
  modify (set_objects (insert (bucket_name, remote_file_name) data)) ;;
  ret (public_url bucket_name remote_file_name).

(** ** Metadata (lines 51-64) *)

Definition get_audio_metadata (local_file_path : string)
    : M (Z * spec_float) :=
  data <- read_file local_file_path ;;
  match from_file local_file_path data with
  | Some audio => ret (len audio, dBFS audio)
  | None => raise (CouldntDecodeError local_file_path)
  end.

(** ** The table store (lines 86-152) *)

(** [client.get_table(table_ref)] *)
Definition get_table (ref : TableRef) : M unit :=
  w <- get_world ;;
  match tables w !! ref with
  | Some _ => ret tt
  | None => raise (NotFound (snd ref))
  end.

(** [client.create_table(table)]: an empty table with the schema *)
Definition create_table (ref : TableRef) : M unit :=
  modify (set_tables (insert ref [])).

(** The table a statement names between backquotes: a fully qualified
    [project.dataset.table]. *)
Definition resolve_ref (table_id : string) : option TableRef :=
  match PyStr.split "." table_id with
  | [project; dataset; table] => Some (project, dataset, table)
  | _ => None
  end.

Definition resolve (table_id : string) : M TableRef :=
  match resolve_ref table_id with
  | Some ref => ret ref
  | None => raise (BadRequest table_id)
  end.

Definition rows_of (table_id : string) : M (TableRef * list AudioRecord) :=
  ref <- resolve table_id ;;
  w <- get_world ;;
  match tables w !! ref with
  | Some rows => ret (ref, rows)
  | None => raise (NotFound table_id)
  end.

Definition matches (url : string) (row : AudioRecord) : bool :=
  String.eqb (gcp_url row) url.

(** [SELECT COUNT FROM table_id WHERE gcp_url = @gcp_url] *)
Definition count_rows (url : string) (rows : list AudioRecord) : Z :=
  Z.of_nat (length (List.filter (matches url) rows)).

(** Lines 120-124: the count query is started and its result is waited
    for ([query_job.result()]); it reads the table as it is then. *)
Definition query_count (table_id url : string) : M Z :=
  t <- rows_of table_id ;;
  ret (count_rows url (snd t)).

(** [client.query(query, job_config=job_config)] at line 150: the job is
    started, and nothing waits for it. *)
Definition start_job (job : Job) : M unit :=
  modify (set_pending (fun jobs => jobs ++ [job])).

(** [INSERT INTO table_id (...) VALUES (...)] *)
Definition query_insert (table_id : string) (row : AudioRecord) : M unit :=
  start_job (InsertJob table_id row).

(** [UPDATE table_id SET file_name = ..., duration_ms = ..., loudness = ...,
    classification = ... WHERE gcp_url = @gcp_url] *)
Definition update_row (new : AudioRecord) (row : AudioRecord) : AudioRecord :=
  if matches (gcp_url new) row then
    mkAudioRecord (gcp_url row) (file_name new) (duration_ms new)
                  (loudness new) (classification new)
  else row.

Definition query_update (table_id : string) (new : AudioRecord) : M unit :=
  start_job (UpdateJob table_id new).

(** ** The table store at work

    What the store does with a job when it carries it out: the statement
    acts on the table it names as that table is then; a statement whose
    table cannot be found fails, and nobody is told. *)
Definition apply_job (job : Job)
    (T : gmap TableRef (list AudioRecord)) : gmap TableRef (list AudioRecord) :=
  match job with
  | InsertJob table_id row =>
      match resolve_ref table_id with
      | Some ref =>
          match T !! ref with
          | Some rows => <[ref := rows ++ [row]]> T
          | None => T
          end
      | None => T
      end
  | UpdateJob table_id new =>
      match resolve_ref table_id with
      | Some ref =>
          match T !! ref with
          | Some rows => <[ref := map (update_row new) rows]> T
          | None => T
          end
      | None => T
      end
  end.

Definition apply_jobs (jobs : list Job)
    (T : gmap TableRef (list AudioRecord)) : gmap TableRef (list AudioRecord) :=
  fold_left (fun T job => apply_job job T) jobs T.

(** The store carries out the [n] oldest pending jobs. *)
Definition store_progress (n : nat) (w : World) : World :=
  set_pending (drop n) (set_tables (apply_jobs (take n (pending w))) w).

(** The store carries out every pending job. *)
Definition settle (w : World) : World :=
  store_progress (length (pending w)) w.

(** The same as a step of a run: time passes between two statements of
    the program and the store carries out what it was handed. *)
Definition store_settles : M unit := modify settle.

Definition insert_into_bigquery
    (key_file_path table_id gcp_url file_name : string) (duration_ms : Z)
    (loudness : spec_float) (classification : string) : M string :=
  environ_set GOOGLE_APPLICATION_CREDENTIALS key_file_path ;;
  project <- client_of_environ ;;
  let parts := PyStr.split "." table_id in
  dataset <- index parts 1 ;;
  table <- index parts 2 ;;
  let table_ref := (project, dataset, table) in
  try_except (get_table table_ref) (create_table table_ref) ;;
  existing_rows <- query_count table_id gcp_url ;;
  let row :=
    mkAudioRecord gcp_url file_name duration_ms loudness classification in
  (if existing_rows =? 0 then query_insert table_id row
   else query_update table_id row) ;;
  ret ("Data inserted/updated in BigQuery. gcp_url: " +:+ gcp_url +:+
       ", Classification: " +:+ classification).

(** ** Calls with positional arguments *)

(** The values the driver passes around. *)
Inductive value :=
| VStr (s : string)
| VInt (n : Z)
| VFloat (x : spec_float).

(** Binding [args] to the parameters [params] of [callee]: every
    parameter is required and positional, so the numbers must agree; with
    too few arguments the error names the parameters left unbound. The
    body runs only once the binding has succeeded. In the two bodies
    below, arguments of other types than the program passes end in
    [TypeError_value]. *)
Definition call {A} (callee : string) (params : list string)
    (body : list value -> M A) (args : list value) : M A :=
  if (length args <? length params)%nat then
    raise (TypeError_missing callee (drop (length args) params))
  else if (length params <? length args)%nat then
    raise (TypeError_extra callee)
  else body args.

Definition upload_to_gcp_storage_params : list string :=
  ["key_file_path"; "bucket_name"; "local_file_path"; "remote_file_name"].

Definition call_upload_to_gcp_storage : list value -> M string :=
  call "upload_to_gcp_storage" upload_to_gcp_storage_params
    (fun args =>
       match args with
       | [VStr k; VStr b; VStr l; VStr r] => upload_to_gcp_storage k b l r
       | _ => raise TypeError_value
       end).

Definition insert_into_bigquery_params : list string :=
  ["key_file_path"; "table_id"; "gcp_url"; "file_name"; "duration_ms";
   "loudness"; "classification"].

Definition call_insert_into_bigquery : list value -> M string :=
  call "insert_into_bigquery" insert_into_bigquery_params
    (fun args =>
       match args with
       | [VStr k; VStr t; VStr u; VStr f; VInt d; VFloat l; VStr c] =>
           insert_into_bigquery k t u f d l c
       | _ => raise TypeError_value
       end).

(** ** The driver (lines 155-195) *)

Definition key_file_path : string :=
  "/Users/debowalealex/Downloads/nth-glider-362309-06dfa4dc6384.json".
Definition bucket_name : string := "adegoju_bucket".
Definition project_id : string := "nth-glider-362309".
Definition table_id : string := "nth-glider-362309.audio_files.audio_metadata".
Definition url_to_scrape : string :=
  "https://www.naijaloaded.com.ng/download-music/victor-ad-ft-phyno-anymore".

(** The temporary path of a link (lines 172 and 175). *)
Definition local_path_of (each_link : string) : string :=
  "temporary_" +:+ PyStr.basename each_link.

(** The arguments of the two calls, as the loop writes them
    (lines 182 and 191). *)
Definition upload_args (local_file_path file_name : string) : list value :=
  [VStr bucket_name; VStr local_file_path; VStr file_name].

Definition insert_args (gcp_url file_name : string) (duration_ms : Z)
    (loudness : spec_float) (classification : string) : list value :=
  [VStr gcp_url; VStr file_name; VInt duration_ms; VFloat loudness;
   VStr classification].

(** The body of the loop (lines 168-195), over the two functions it
    calls. *)
Definition loop_body (upload insert : list value -> M string)
    (each_link : string) : M unit :=
  audio_response <- http_get each_link ;;
  let file_name := PyStr.basename each_link in
  let local_file_path := "temporary_" +:+ file_name in
  write_file local_file_path (content audio_response) ;;
  gcp_url <- upload (upload_args local_file_path file_name) ;;
  meta <- get_audio_metadata local_file_path ;;
  let duration_ms := fst meta in
  let loudness := snd meta in
  let classification := classify_audio duration_ms loudness in
  result <- insert (insert_args gcp_url file_name duration_ms loudness
                                classification) ;;
  os_remove local_file_path.

Definition process_item : string -> M unit :=
  loop_body call_upload_to_gcp_storage call_insert_into_bigquery.

(** Lines 163-195. *)
Definition main : M unit :=
  audio_links <- find_audio_links url_to_scrape ;;
  for_each audio_links process_item.

End Program.

(* ===================================================================== *)
(** * Runs of upserts, and a closed world for examples *)
(* ===================================================================== *)

(** The rows of a table once the job of an upsert of [row] has been
    carried out on the very rows the call counted: what lines 120-150
    amount to when nothing else is written in between. *)
Definition upsert_rows (row : AudioRecord) (rows : list AudioRecord)
    : list AudioRecord :=
  if count_rows (gcp_url row) rows =? 0 then rows ++ [row]
  else map (update_row row) rows.

(** The job that lines 126-150 start for [row] on a table whose rows
    were [rows] when the count was read. *)
Definition upsert_job (table_id : string) (row : AudioRecord)
    (rows : list AudioRecord) : Job :=
  if count_rows (gcp_url row) rows =? 0 then InsertJob table_id row
  else UpdateJob table_id row.

(** The world after the credentials are set and the table of the client
    is made sure to exist (lines 102-118). *)
Definition ensured `{Collaborators} (key_file_path dataset table : string)
    (w : World)
    : World :=
  let w1 := set_environ (insert GOOGLE_APPLICATION_CREDENTIALS key_file_path) w in
  let table_ref := (client_project key_file_path, dataset, table) in
  match tables w !! table_ref with
  | Some _ => w1
  | None => set_tables (insert table_ref []) w1
  end.

Definition confirmation (url cls : string) : string :=
  "Data inserted/updated in BigQuery. gcp_url: " +:+ url +:+
  ", Classification: " +:+ cls.

(** The exception of the upload call of the loop, and of its insert call. *)
Definition upload_TypeError : exn :=
  TypeError_missing "upload_to_gcp_storage" ["remote_file_name"].
Definition insert_TypeError : exn :=
  TypeError_missing "insert_into_bigquery" ["loudness"; "classification"].

(** One upsert of a pipeline run: the credentials file, the table and the
    record. *)
Record Upsert := mkUpsert {
  upsert_key_file_path : string;
  upsert_table_id : string;
  upsert_record : AudioRecord
}.

Definition run_upsert `{Collaborators} (u : Upsert) : M unit :=
  let r := upsert_record u in
  insert_into_bigquery (upsert_key_file_path u) (upsert_table_id u)
    (gcp_url r) (file_name r) (duration_ms r) (loudness r)
    (classification r) ;;
  ret tt.

(** The upserts of a sequential run, one after the other, the store
    doing nothing in between. *)
Definition run_upserts `{Collaborators} (us : list Upsert) : M unit :=
  for_each us run_upsert.

(** The same run with a store that has carried out every job by the time
    the next upsert begins. *)
Definition run_upserts_settled `{Collaborators} (us : list Upsert) : M unit :=
  for_each us (fun u => run_upsert u ;; store_settles).

(** The rows that carry the locator [url]. *)
Definition rows_with (url : string) (rows : list AudioRecord)
    : list AudioRecord :=
  filter (fun row => gcp_url row = url) rows.

(** At most one row per locator, in one table and in every table: no
    locator occurs twice among the rows. *)
Definition one_row_per_locator (rows : list AudioRecord) : Prop :=
  NoDup (map gcp_url rows).

Definition tables_ok (T : gmap TableRef (list AudioRecord)) : Prop :=
  forall ref rows, T !! ref = Some rows -> one_row_per_locator rows.

Definition store_ok (w : World) : Prop := tables_ok (tables w).

(** The loop the specification describes: an item that fails is reported
    and the loop goes on with the next one. Only used to compare the
    driver's loop with. *)
Fixpoint for_each_isolated {A} (xs : list A) (body : A -> M unit)
    : M (list (A * exn)) :=
  match xs with
  | [] => ret []
  | x :: xs' =>
      fun w =>
        match body x w with
        | (w', inr _) => for_each_isolated xs' body w'
        | (w', inl e) =>
            match for_each_isolated xs' body w' with
            | (w'', inr failed) => (w'', inr ((x, e) :: failed))
            | (w'', inl e') => (w'', inl e')
            end
        end
  end.

Module Demo.

(** Collaborators over a fixed set of reachable URLs. The stand-in parser
    reads a page as a blank-separated list of link targets; the stand-in
    decoder accepts every non-empty file; a client can be built from the
    key file of the module and from no other; a file opens when its name
    has at most 255 characters; a set is listed in the order of its
    [elements]. *)
Definition collaborators (web : list (string * Response)) : Collaborators := {|
  requests_get url := (list_to_map web : gmap string Response) !! url;
  find_all_a_href := String.words;
  from_file path data :=
    if String.eqb data "" then None
    else Some (mkAudioSegment (Z.of_nat (String.length data))
                              PyFloat.minus_19_9);
  public_url bucket name :=
    "https://storage.googleapis.com/" +:+ bucket +:+ "/" +:+ name;
  client_loads key := String.eqb key key_file_path;
  client_project _ := project_id;
  can_open path := (String.length path <=? 255)%nat;
  set_iteration xs := elements (list_to_set xs : gset string);
  set_iteration_NoDup xs := NoDup_elements (list_to_set xs);
  set_iteration_elem xs x :=
    iff_trans (elem_of_elements (list_to_set xs) x)
              (elem_of_list_to_set x xs)
|}.

Definition empty_world : World := mkWorld ∅ ∅ ∅ ∅ [] [].

Definition page (status : Z) (body : string) : Response :=
  mkResponse status body body.

(** A page with two absolute links, both reachable. *)
Definition two_links : list (string * Response) :=
  [(url_to_scrape, page 200 "http://h/a.mp3 http://h/b.mp3");
   ("http://h/a.mp3", page 200 "aaaa");
   ("http://h/b.mp3", page 200 "bbbb")].

(** A page with one relative link: [requests.get] raises on a URL without
    a scheme, so the link is not reachable as it stands. *)
Definition relative_link : list (string * Response) :=
  [(url_to_scrape, page 200 "a.mp3")].

(** A reachable link to an empty file, which the stand-in decoder
    rejects. *)
Definition undecodable : list (string * Response) :=
  [("http://h/e.mp3", page 200 "")].

(** A reachable link to a file whose name has 254 characters: the
    temporary path has 264, and [open] refuses it. *)
Definition long_name : string :=
  String.concat "" (replicate 250 "a") +:+ ".mp3".
Definition long_link : list (string * Response) :=
  [("http://h/" +:+ long_name, page 200 "aaaa")].

(** The two calls of the loop with the arguments its callees require:
    the credentials file first, and the table for the insert. *)
Definition upload_with_key `{Collaborators} (args : list value) : M string :=
  call_upload_to_gcp_storage (VStr key_file_path :: args).
Definition insert_with_key_and_table `{Collaborators} (args : list value)
    : M string :=
  call_insert_into_bigquery (VStr key_file_path :: VStr table_id :: args).

End Demo.

(* ===================================================================== *)
(** * Notions used to state further properties *)
(* ===================================================================== *)

(** How many times the character [c] occurs in [s]. *)
Fixpoint occurrences (c : ascii) (s : string) : nat :=
  match s with
  | EmptyString => 0
  | String c' s' => (if Ascii.eqb c' c then 1 else 0) + occurrences c s'
  end.

(** A row that does not carry the locator [url]. *)
Definition other_locator (url : string) (row : AudioRecord) : bool :=
  negb (matches url row).

(** ** Words of the specification

    The part of a link target before its query string or fragment; the
    path of the target is the end of it. *)
Fixpoint before_query (href : string) : string :=
  match href with
  | EmptyString => EmptyString
  | String c rest =>
      if Ascii.eqb c "?" || Ascii.eqb c "#" then EmptyString
      else String c (before_query rest)
  end.

(** The five extensions, one by one. *)
Definition listed_extension (ext : string) : Prop :=
  ext = ".mp3" \/ ext = ".wav" \/ ext = ".ogg" \/ ext = ".flac"
  \/ ext = ".aac".

(** [a] is the capital letter of which [b] is the small one. *)
Definition capital_of (a b : ascii) : Prop :=
  (65 <= N_of_ascii a <= 90)%N /\ N_of_ascii b = (N_of_ascii a + 32)%N.

(** Two characters, and two strings, that differ in the case of letters
    at most. *)
Definition same_letter (a b : ascii) : Prop :=
  a = b \/ capital_of a b \/ capital_of b a.

Fixpoint same_ignoring_case (s t : string) : Prop :=
  match s, t with
  | EmptyString, EmptyString => True
  | String a s', String b t' => same_letter a b /\ same_ignoring_case s' t'
  | _, _ => False
  end.

(** A link target ends, whatever the case of its letters, in one of the
    five extensions. *)
Definition ends_in_audio_extension (href : string) : Prop :=
  exists front tail ext,
    href = front +:+ tail /\ listed_extension ext /\
    same_ignoring_case tail ext.
(* ===================================================================== *)
(** * Properties of the classifier *)
(* ===================================================================== *)

(** ** The comparisons with [-20] are those of the real values *)

Lemma digits2_pos_bounds (m : positive) :
  2 ^ (Zpos (digits2_pos m) - 1) <= Zpos m < 2 ^ Zpos (digits2_pos m).
Proof.
  induction m as [m IH|m IH|]; cbn [digits2_pos].
  - rewrite Pos2Z.inj_succ.
    replace (Z.succ (Zpos (digits2_pos m)) - 1)
      with (Z.succ (Zpos (digits2_pos m) - 1)) by lia.
    rewrite !Z.pow_succ_r by lia. lia.
  - rewrite Pos2Z.inj_succ.
    replace (Z.succ (Zpos (digits2_pos m)) - 1)
      with (Z.succ (Zpos (digits2_pos m) - 1)) by lia.
    rewrite !Z.pow_succ_r by lia. lia.
  - simpl. lia.
Qed.

(** What validity says of a mantissa and its exponent, against the
    exponent [-48] of [-20.0]; [B] stands for [2^1025]. *)
Lemma valid_finite_bounds (s : bool) (m : positive) (e : Z) :
  PyFloat.valid (S754_finite s m e) = true ->
  let B := 2 ^ 1025 in
  let P := 2 ^ (e + 1074) in
  0 < B /\ 0 < P /\ 2 ^ 1074 = 2 ^ 49 * B
  /\ (e < -48 -> P <= B /\ Zpos m < 2 ^ 53)
  /\ (e = -48 -> P = 2 * B)
  /\ (-48 < e -> 4 * B <= P /\ 2 ^ 52 <= Zpos m).
Proof.
  intros H B P.
  unfold PyFloat.valid, valid_binary, bounded, canonical_mantissa, fexp, emin
    in H.
  apply andb_true_iff in H as [Hc _].
  apply Z.eqb_eq in Hc.
  pose proof (digits2_pos_bounds m) as [Hlo Hhi].
  assert (0 < B) as HB by (apply Z.pow_pos_nonneg; lia).
  assert (-1074 <= e) as He by lia.
  assert (0 < P) as HP by (apply Z.pow_pos_nonneg; lia).
  split; [exact HB|]. split; [exact HP|].
  split; [unfold B; rewrite <- Z.pow_add_r by lia; reflexivity|].
  split; [|split].
  - intros Hlt. split.
    + apply Z.pow_le_mono_r; lia.
    + eapply Z.lt_le_trans; [exact Hhi|]. apply Z.pow_le_mono_r; lia.
  - intros ->. unfold P, B.
    replace (-48 + 1074) with (Z.succ 1025) by lia.
    apply Z.pow_succ_r. lia.
  - intros Hgt. split.
    + change 4 with (2 ^ 2). unfold B. rewrite <- Z.pow_add_r by lia.
      apply Z.pow_le_mono_r; lia.
    + eapply Z.le_trans; [|exact Hlo]. apply Z.pow_le_mono_r; lia.
Qed.

(** The order of [m * P] and [20 * 2^1074], from the three cases above. *)
Lemma mantissa_against_20 (m e B P : Z) :
  0 < B -> 0 < P -> 0 < m ->
  (e < -48 -> P <= B /\ m < 9007199254740992) ->
  (e = -48 -> P = 2 * B) ->
  (-48 < e -> 4 * B <= P /\ 4503599627370496 <= m) ->
  (m * P < 20 * (562949953421312 * B) <->
   e < -48 \/ (e = -48 /\ m < 5629499534213120)).
Proof.
  intros HB HP Hm Hlt Heq Hgt.
  destruct (Z.lt_trichotomy e (-48)) as [E|[E|E]].
  - destruct (Hlt E) as [HPB Hm53].
    assert (m * P <= m * B) by (apply Z.mul_le_mono_nonneg_l; lia).
    assert (m * B < 9007199254740992 * B)
      by (apply Z.mul_lt_mono_pos_r; lia).
    split; [intros _; left; exact E|intros _; lia].
  - rewrite (Heq E).
    replace (m * (2 * B)) with ((2 * m) * B) by ring.
    replace (20 * (562949953421312 * B)) with (11258999068426240 * B) by ring.
    rewrite <- Z.mul_lt_mono_pos_r by exact HB. lia.
  - destruct (Hgt E) as [HPB Hm52].
    assert (m * (4 * B) <= m * P) by (apply Z.mul_le_mono_nonneg_l; lia).
    assert (4503599627370496 * (4 * B) <= m * (4 * B))
      by (apply Z.mul_le_mono_nonneg_r; lia).
    split; [intros; lia|intros [?|[? _]]; lia].
Qed.

(** The two comparisons with [-20.0] on a negative finite float, read off
    the exponent and the mantissa. *)
Lemma gt_finite_neg (m : positive) (e : Z) :
  PyFloat.gt (S754_finite true m e) PyFloat.minus_20 =
    (e <? -48) || ((e =? -48) && (Zpos m <? 5629499534213120)).
Proof.
  unfold PyFloat.gt, PyFloat.minus_20, SFltb, SFcompare.
  rewrite (Z.compare_antisym e (-48)).
  destruct (Z.compare_spec e (-48)) as [E|E|E]; cbn [CompOpp].
  - subst e. rewrite Pos.compare_cont_antisym. cbn [CompOpp].
    rewrite Z.ltb_irrefl, Z.eqb_refl. cbn [orb andb].
    unfold Z.ltb. cbn [Z.compare]. unfold Pos.compare. reflexivity.
  - apply Z.ltb_lt in E. rewrite E. reflexivity.
  - destruct (Z.ltb_spec e (-48)); [lia|].
    destruct (Z.eqb_spec e (-48)); [lia|]. reflexivity.
Qed.

Lemma le_finite_neg (m : positive) (e : Z) :
  PyFloat.le (S754_finite true m e) PyFloat.minus_20 =
    (-48 <? e) || ((e =? -48) && (5629499534213120 <=? Zpos m)).
Proof.
  unfold PyFloat.le, PyFloat.minus_20, SFleb, SFcompare.
  destruct (Z.compare_spec e (-48)) as [E|E|E].
  - subst e. rewrite Z.ltb_irrefl, Z.eqb_refl. cbn [orb andb].
    unfold Z.leb. cbn [Z.compare]. rewrite (Pos.compare_antisym m).
    unfold Pos.compare.
    destruct (Pos.compare_cont Eq m 5629499534213120); reflexivity.
  - destruct (Z.ltb_spec (-48) e); [lia|].
    destruct (Z.eqb_spec e (-48)); [lia|]. reflexivity.
  - apply Z.ltb_lt in E. rewrite E. reflexivity.
Qed.

(** The value of a valid finite float against [-20], through its exponent
    and mantissa. *)
Lemma finite_against_20 (s : bool) (m : positive) (e : Z) :
  PyFloat.valid (S754_finite s m e) = true ->
  (Zpos m * 2 ^ (e + 1074) < 20 * 2 ^ 1074 <->
   e < -48 \/ (e = -48 /\ Zpos m < 5629499534213120))
  /\ 0 < Zpos m * 2 ^ (e + 1074) /\ 0 < 2 ^ 1074.
Proof.
  intros Hv.
  destruct (valid_finite_bounds s m e Hv) as (HB & HP & HT & Hlt & Heq & Hgt).
  rewrite HT. clear HT Hv.
  generalize dependent (2 ^ 1025). intros B HB Hlt Heq Hgt.
  generalize dependent (2 ^ (e + 1074)). intros P HP Hlt Heq Hgt.
  replace (2 ^ 49) with 562949953421312 by reflexivity.
  replace (2 ^ 53) with 9007199254740992 in Hlt by reflexivity.
  replace (2 ^ 52) with 4503599627370496 in Hgt by reflexivity.
  split; [|split].
  - apply mantissa_against_20; (assumption || apply Pos2Z.is_pos).
  - apply Z.mul_pos_pos; [apply Pos2Z.is_pos|exact HP].
  - apply Z.mul_pos_pos; [reflexivity|exact HB].
Qed.

Lemma gt_minus_20_exact (x : spec_float) (v : Z) :
  PyFloat.valid x = true -> PyFloat.scaled x = Some v ->
  (PyFloat.gt x PyFloat.minus_20 = true <-> -20 * 2 ^ 1074 < v).
Proof.
  destruct x as [s|s| |s m e]; try discriminate.
  - intros _ [= <-]. assert (0 < 2 ^ 1074) by (apply Z.pow_pos_nonneg; lia).
    destruct s; (split; [intros _; lia|intros _; reflexivity]).
  - intros Hv [= <-].
    destruct (finite_against_20 s m e Hv) as (Hcmp & Hpos & HT).
    rewrite <- Z.mul_assoc.
    generalize dependent (2 ^ 1074). intros T Hcmp HT.
    generalize dependent (Zpos m * 2 ^ (e + 1074)). intros V Hcmp Hpos.
    destruct s.
    + rewrite gt_finite_neg.
      rewrite orb_true_iff, andb_true_iff, Z.ltb_lt, Z.eqb_eq, Z.ltb_lt.
      lia.
    + split; [intros _; lia|intros _; reflexivity].
Qed.

Lemma le_minus_20_exact (x : spec_float) (v : Z) :
  PyFloat.valid x = true -> PyFloat.scaled x = Some v ->
  (PyFloat.le x PyFloat.minus_20 = true <-> v <= -20 * 2 ^ 1074).
Proof.
  destruct x as [s|s| |s m e]; try discriminate.
  - intros _ [= <-]. assert (0 < 2 ^ 1074) by (apply Z.pow_pos_nonneg; lia).
    destruct s; (split; [intros Hle; discriminate Hle|intros; lia]).
  - intros Hv [= <-].
    destruct (finite_against_20 s m e Hv) as (Hcmp & Hpos & HT).
    rewrite <- Z.mul_assoc.
    generalize dependent (2 ^ 1074). intros T Hcmp HT.
    generalize dependent (Zpos m * 2 ^ (e + 1074)). intros V Hcmp Hpos.
    destruct s.
    + rewrite le_finite_neg.
      rewrite orb_true_iff, andb_true_iff, Z.ltb_lt, Z.eqb_eq, Z.leb_le.
      lia.
    + split; [intros Hle; discriminate Hle|intros; lia].
Qed.

Example literals_valid :
  PyFloat.valid PyFloat.minus_20 = true /\
  PyFloat.valid PyFloat.minus_19_9 = true /\
  PyFloat.scaled PyFloat.minus_20 = Some (-20 * 2 ^ 1074).
Proof. split; [|split]; vm_compute; reflexivity. Qed.

Lemma labels_distinct : NoDup labels.
Proof.
  apply (bool_decide_unpack _). vm_compute. reflexivity.
Qed.

(** The decision table, row by row. *)
Lemma classify_audio_high d l :
  classify_audio d l = HighEnergy <->
  d < 60000 /\ PyFloat.gt l PyFloat.minus_20 = true.
Proof.
  unfold classify_audio.
  destruct (Z.ltb_spec d 60000), (PyFloat.gt l PyFloat.minus_20); simpl;
    try (destruct (_ && _)); split; intros; try discriminate;
    try tauto; try lia; intuition (discriminate || lia).
Qed.

Lemma classify_audio_low d l :
  classify_audio d l = LowEnergy <->
  60000 <= d /\ PyFloat.le l PyFloat.minus_20 = true.
Proof.
  unfold classify_audio.
  destruct (Z.ltb_spec d 60000), (Z.geb_spec d 60000); try lia;
    destruct (PyFloat.gt l PyFloat.minus_20),
             (PyFloat.le l PyFloat.minus_20); simpl;
    split; intros; try discriminate; intuition (discriminate || lia).
Qed.

Lemma classify_audio_in_labels d l : classify_audio d l ∈ labels.
Proof.
  unfold classify_audio, labels.
  destruct (_ && _); [set_solver|]. destruct (_ && _); set_solver.
Qed.

(** C3. [classify_audio] is a total, deterministic function into the closed
    three-label set: for every duration [d >= 0] and every float [l] the
    result is one of the three pairwise distinct labels, equal inputs give
    equal labels, the result follows the decision table (HighEnergy exactly
    when [d < 60000] and [l > -20]; LowEnergy exactly when [d >= 60000] and
    [l <= -20]; MediumEnergy otherwise), the four boundary cases of the
    specification evaluate as stated, and for a float of the binary64
    format with a value the two comparisons are those of that value with
    [-20] (both scaled by [2^1074]), so the thresholds are exact. *)
Theorem classify_audio_total_deterministic (d : Z) (l : spec_float) :
  0 <= d ->
  classify_audio d l ∈ labels
  /\ NoDup labels
  /\ (forall d' l', d' = d -> l' = l -> classify_audio d' l' = classify_audio d l)
  /\ (classify_audio d l = HighEnergy <->
        d < 60000 /\ PyFloat.gt l PyFloat.minus_20 = true)
  /\ (classify_audio d l = LowEnergy <->
        60000 <= d /\ PyFloat.le l PyFloat.minus_20 = true)
  /\ (classify_audio d l = MediumEnergy <->
        ~ (d < 60000 /\ PyFloat.gt l PyFloat.minus_20 = true) /\
        ~ (60000 <= d /\ PyFloat.le l PyFloat.minus_20 = true))
  /\ classify_audio 59999 PyFloat.minus_19_9 = HighEnergy
  /\ classify_audio 60000 PyFloat.minus_20 = LowEnergy
  /\ classify_audio 60000 PyFloat.minus_19_9 = MediumEnergy
  /\ classify_audio 59999 PyFloat.minus_20 = MediumEnergy
  /\ (forall v, PyFloat.valid l = true -> PyFloat.scaled l = Some v ->
        (PyFloat.gt l PyFloat.minus_20 = true <-> -20 * 2 ^ 1074 < v) /\
        (PyFloat.le l PyFloat.minus_20 = true <-> v <= -20 * 2 ^ 1074)).
Proof.
  intros _.
  split; [apply classify_audio_in_labels|].
  split; [apply labels_distinct|].
  split; [intros; subst; reflexivity|].
  split; [apply classify_audio_high|].
  split; [apply classify_audio_low|].
  split;
    [|repeat (split; [reflexivity|]); intros v Hv Hs;
      split; [apply gt_minus_20_exact|apply le_minus_20_exact]; assumption].
  rewrite <- classify_audio_high, <- classify_audio_low.
  pose proof (classify_audio_in_labels d l) as Hin.
  unfold labels in Hin.
  apply elem_of_cons in Hin as [->|Hin]; [split; [discriminate|tauto]|].
  apply elem_of_cons in Hin as [->|Hin]; [split; [discriminate|tauto]|].
  apply list_elem_of_singleton in Hin as ->.
  split; [intros _; split; discriminate|reflexivity].
Qed.

Lemma classify_audio_total_deterministic_witness :
  classify_audio 59999 PyFloat.minus_19_9 ∈ labels
  /\ classify_audio 59999 PyFloat.minus_19_9 = HighEnergy.
Proof.
  pose proof (classify_audio_total_deterministic 59999 PyFloat.minus_19_9
                ltac:(lia)) as H.
  split; [exact (proj1 H)|].
  exact (proj1 (proj2 (proj2 (proj2 (proj2 (proj2 (proj2 H))))))).
Defined.

(** C8. A loudness of negative infinity takes the [<= -20] side of the
    table whatever the duration: the result is LowEnergy from 60000 ms on,
    MediumEnergy below, and never HighEnergy. *)
Theorem classify_audio_neg_infinity (d : Z) :
  classify_audio d PyFloat.neg_infinity =
    (if 60000 <=? d then LowEnergy else MediumEnergy)
  /\ classify_audio d PyFloat.neg_infinity <> HighEnergy
  /\ PyFloat.le PyFloat.neg_infinity PyFloat.minus_20 = true.
Proof.
  assert (classify_audio d PyFloat.neg_infinity =
          if 60000 <=? d then LowEnergy else MediumEnergy) as E.
  { unfold classify_audio.
    destruct (Z.ltb_spec d 60000), (Z.geb_spec d 60000),
      (Z.leb_spec 60000 d); try lia; reflexivity. }
  split; [exact E|]. split; [|reflexivity].
  rewrite E. destruct (60000 <=? d); discriminate.
Qed.

(** C10. A NaN loudness makes both float comparisons false, so neither of
    the first two branches is taken and the result is MediumEnergy for
    every duration. *)
Theorem classify_audio_nan (d : Z) :
  PyFloat.gt PyFloat.nan PyFloat.minus_20 = false
  /\ PyFloat.le PyFloat.nan PyFloat.minus_20 = false
  /\ classify_audio d PyFloat.nan = MediumEnergy.
Proof.
  split; [reflexivity|]. split; [reflexivity|].
  unfold classify_audio.
  replace (PyFloat.gt PyFloat.nan PyFloat.minus_20) with false by reflexivity.
  replace (PyFloat.le PyFloat.nan PyFloat.minus_20) with false by reflexivity.
  rewrite !andb_false_r. reflexivity.
Qed.

(* ===================================================================== *)
(** * Further properties: strings *)
(* ===================================================================== *)

Section Strings.

Lemma append_cons (c : ascii) (s1 s2 : string) :
  String c s1 +:+ s2 = String c (s1 +:+ s2).
Proof. reflexivity. Qed.

Lemma append_nil_l (s : string) : "" +:+ s = s.
Proof. reflexivity. Qed.

Lemma append_nil_r (s : string) : s +:+ "" = s.
Proof.
  induction s as [|c s IH]; [reflexivity|].
  rewrite append_cons, IH. reflexivity.
Qed.

Lemma append_assoc (s1 s2 s3 : string) :
  (s1 +:+ s2) +:+ s3 = s1 +:+ (s2 +:+ s3).
Proof.
  induction s1 as [|c s1 IH]; [reflexivity|].
  rewrite !append_cons, IH. reflexivity.
Qed.

Lemma length_append (s1 s2 : string) :
  String.length (s1 +:+ s2) = (String.length s1 + String.length s2)%nat.
Proof.
  induction s1 as [|c s1 IH]; [reflexivity|].
  rewrite append_cons. simpl. rewrite IH. reflexivity.
Qed.

Lemma rev_app_spec (s1 s2 : string) :
  String.rev_app s1 s2 = String.rev s1 +:+ s2.
Proof.
  revert s2. induction s1 as [|c s1 IH]; intros s2; [reflexivity|].
  unfold String.rev. cbn [String.rev_app].
  rewrite (IH (String c s2)), (IH (String c "")).
  rewrite append_assoc. reflexivity.
Qed.

Lemma rev_cons (c : ascii) (s : string) :
  String.rev (String c s) = String.rev s +:+ String c "".
Proof. unfold String.rev at 1. cbn [String.rev_app]. apply rev_app_spec. Qed.

Lemma occurrences_append (c : ascii) (s1 s2 : string) :
  occurrences c (s1 +:+ s2) = (occurrences c s1 + occurrences c s2)%nat.
Proof.
  induction s1 as [|c' s1 IH]; [reflexivity|].
  rewrite append_cons. simpl. rewrite IH. lia.
Qed.

Lemma occurrences_rev (c : ascii) (s : string) :
  occurrences c (String.rev s) = occurrences c s.
Proof.
  induction s as [|c' s IH]; [reflexivity|].
  rewrite rev_cons, occurrences_append, IH. simpl. lia.
Qed.

(** ** [split] *)

Lemma split_go_not_nil (sep : ascii) (cur s : string) :
  PyStr.split_go sep cur s <> [].
Proof.
  revert cur. induction s as [|c s IH]; intros cur; simpl; [discriminate|].
  destruct (Ascii.eqb c sep); [discriminate|apply IH].
Qed.

Lemma concat_cons (sep x : string) (l : list string) :
  l <> [] -> String.concat sep (x :: l) = x +:+ sep +:+ String.concat sep l.
Proof. destruct l; [congruence|reflexivity]. Qed.

Lemma split_go_join (sep : ascii) (cur s : string) :
  String.concat (String sep "") (PyStr.split_go sep cur s) =
    String.rev cur +:+ s.
Proof.
  revert cur. induction s as [|c s IH]; intros cur; simpl.
  - rewrite append_nil_r. reflexivity.
  - destruct (Ascii.eqb_spec c sep) as [->|Hne].
    + rewrite concat_cons by apply split_go_not_nil.
      rewrite IH. reflexivity.
    + rewrite IH, rev_cons, append_assoc. reflexivity.
Qed.

Lemma split_go_length (sep : ascii) (cur s : string) :
  length (PyStr.split_go sep cur s) = S (occurrences sep s).
Proof.
  revert cur. induction s as [|c s IH]; intros cur; simpl; [reflexivity|].
  destruct (Ascii.eqb c sep); simpl; rewrite IH; reflexivity.
Qed.

Lemma split_go_parts (sep : ascii) (cur s : string) :
  occurrences sep cur = 0%nat ->
  Forall (fun part => occurrences sep part = 0%nat)
         (PyStr.split_go sep cur s).
Proof.
  revert cur. induction s as [|c s IH]; intros cur Hcur; simpl.
  - constructor; [|constructor]. rewrite occurrences_rev. exact Hcur.
  - destruct (Ascii.eqb c sep) eqn:E.
    + constructor; [rewrite occurrences_rev; exact Hcur|].
      apply IH. reflexivity.
    + apply IH. simpl. rewrite E, Hcur. reflexivity.
Qed.

(** ** [basename] *)

Lemma basename_go_no_slash (cur p : string) :
  occurrences "/" cur = 0%nat ->
  occurrences "/" (PyStr.basename_go cur p) = 0%nat.
Proof.
  revert cur. induction p as [|c p IH]; intros cur Hcur; simpl.
  - rewrite occurrences_rev. exact Hcur.
  - destruct (Ascii.eqb c "/") eqn:E.
    + apply IH. reflexivity.
    + apply IH. simpl. rewrite E, Hcur. reflexivity.
Qed.

Lemma basename_go_spec (cur p : string) :
  (occurrences "/" p = 0%nat /\
   PyStr.basename_go cur p = String.rev cur +:+ p)
  \/ exists dir, p = dir +:+ "/" +:+ PyStr.basename_go cur p.
Proof.
  revert cur. induction p as [|c p IH]; intros cur; simpl.
  - left. split; [reflexivity|]. rewrite append_nil_r. reflexivity.
  - destruct (Ascii.eqb_spec c "/") as [->|Hne].
    + right. destruct (IH "") as [[Hno Hb]|[dir Hd]].
      * exists "". rewrite Hb. reflexivity.
      * exists (String "/" dir). rewrite append_cons, <- Hd. reflexivity.
    + destruct (IH (String c cur)) as [[Hno Hb]|[dir Hd]].
      * left. split; [exact Hno|].
        rewrite Hb, rev_cons, append_assoc. reflexivity.
      * right. exists (String c dir). rewrite append_cons, <- Hd.
        reflexivity.
Qed.

(** ** [lower] and [endswith] *)

Lemma lower_ascii_idempotent (c : ascii) :
  PyStr.lower_ascii (PyStr.lower_ascii c) = PyStr.lower_ascii c.
Proof. destruct c as [[] [] [] [] [] [] [] []]; reflexivity. Qed.

Lemma lower_idempotent (s : string) :
  PyStr.lower (PyStr.lower s) = PyStr.lower s.
Proof.
  induction s as [|c s IH]; simpl; [reflexivity|].
  rewrite lower_ascii_idempotent, IH. reflexivity.
Qed.

Lemma lower_append (s1 s2 : string) :
  PyStr.lower (s1 +:+ s2) = PyStr.lower s1 +:+ PyStr.lower s2.
Proof.
  induction s1 as [|c s1 IH]; [reflexivity|].
  rewrite append_cons. simpl. rewrite IH. reflexivity.
Qed.

Lemma length_lower (s : string) :
  String.length (PyStr.lower s) = String.length s.
Proof.
  induction s as [|c s IH]; simpl; [reflexivity|]. rewrite IH. reflexivity.
Qed.

Lemma endswith_length (s suffix : string) :
  PyStr.endswith s suffix = true ->
  (String.length suffix <= String.length s)%nat.
Proof.
  induction s as [|c s IH]; cbn [PyStr.endswith].
  - rewrite orb_false_r, String.eqb_eq. intros <-. reflexivity.
  - rewrite orb_true_iff, String.eqb_eq. intros [<-|H]; [reflexivity|].
    specialize (IH H). simpl. lia.
Qed.

Lemma endswith_append (p s suffix : string) :
  (String.length suffix <= String.length s)%nat ->
  PyStr.endswith (p +:+ s) suffix = PyStr.endswith s suffix.
Proof.
  intros Hlen. induction p as [|c p IH]; [reflexivity|].
  change (String c p +:+ s) with (String c (p +:+ s)).
  cbn [PyStr.endswith]. rewrite IH.
  destruct (String.eqb_spec (String c (p +:+ s)) suffix) as [E|_];
    [|reflexivity].
  apply (f_equal String.length) in E. simpl in E.
  rewrite length_append in E. lia.
Qed.

End Strings.

(* ===================================================================== *)
(** * Properties of link discovery *)
(* ===================================================================== *)

Section Discovery.
Context {C : Collaborators}.

(** [endswith] holds exactly of the strings that are a prefix followed by
    the suffix. *)
Lemma endswith_spec (s suffix : string) :
  PyStr.endswith s suffix = true <-> exists p, s = p +:+ suffix.
Proof.
  induction s as [|c s IH]; cbn [PyStr.endswith].
  - rewrite orb_false_r, String.eqb_eq. split.
    + intros <-. exists "". reflexivity.
    + intros [[|c p] Hp]; [exact Hp|discriminate Hp].
  - rewrite orb_true_iff, String.eqb_eq, IH. split.
    + intros [<-|[p ->]]; [exists ""; reflexivity|].
      exists (String c p). reflexivity.
    + intros [[|c' p] Hp]; [left; exact Hp|].
      right. exists p. injection Hp as _ Hp. exact Hp.
Qed.

(** A link is kept exactly when its lower-cased text ends in one of the
    five extensions. *)
Lemma is_audio_link_spec (href : string) :
  is_audio_link href = true <->
  exists ext, ext ∈ audio_extensions /\
    exists p, PyStr.lower href = p +:+ ext.
Proof.
  unfold is_audio_link. rewrite existsb_exists. split.
  - intros (ext & Hin & He). exists ext. split.
    + apply list_elem_of_In, Hin.
    + apply endswith_spec, He.
  - intros (ext & Hin & He). exists ext. split.
    + apply list_elem_of_In, Hin.
    + apply endswith_spec, He.
Qed.

(** ** Letters and their case *)

Lemma capital_not_lower (b : ascii) :
  (65 <= N_of_ascii b <= 90)%N -> PyStr.lower_ascii b <> b.
Proof.
  intros [Hlo Hhi] E. unfold PyStr.lower_ascii in E.
  apply N.leb_le in Hlo as Hlo'. apply N.leb_le in Hhi as Hhi'.
  rewrite Hlo', Hhi' in E. simpl in E.
  apply (f_equal N_of_ascii) in E.
  rewrite N_ascii_embedding in E by lia. lia.
Qed.

Lemma lower_ascii_same_letter (a : ascii) :
  same_letter a (PyStr.lower_ascii a).
Proof.
  unfold PyStr.lower_ascii.
  destruct (N.leb_spec 65 (N_of_ascii a)), (N.leb_spec (N_of_ascii a) 90);
    simpl; try (left; reflexivity).
  right. left. split; [lia|]. apply N_ascii_embedding. lia.
Qed.

Lemma same_letter_lower (a b : ascii) :
  same_letter a b -> PyStr.lower_ascii b = b -> PyStr.lower_ascii a = b.
Proof.
  intros [->|[[Ha Hab]|[Hb _]]] Hb'.
  - exact Hb'.
  - unfold PyStr.lower_ascii.
    destruct Ha as [Hlo Hhi].
    apply N.leb_le in Hlo as ->. apply N.leb_le in Hhi as ->. simpl.
    rewrite <- Hab. apply ascii_N_embedding.
  - destruct (capital_not_lower b Hb Hb').
Qed.

Lemma lower_same_ignoring_case (s : string) :
  same_ignoring_case s (PyStr.lower s).
Proof.
  induction s as [|a s IH]; simpl; [exact I|].
  split; [apply lower_ascii_same_letter|exact IH].
Qed.

Lemma same_ignoring_case_lower (s t : string) :
  same_ignoring_case s t -> PyStr.lower t = t -> PyStr.lower s = t.
Proof.
  revert t. induction s as [|a s IH]; intros [|b t]; simpl; try tauto.
  intros [Hab Hst] [= Hb Ht].
  rewrite (same_letter_lower a b Hab Hb), (IH t Hst Ht). reflexivity.
Qed.

(** A lower-cased string that ends in [ext] comes from a string whose end
    lower-cases to [ext]. *)
Lemma lower_split (h p ext : string) :
  PyStr.lower h = p +:+ ext ->
  exists front tail, h = front +:+ tail /\ PyStr.lower tail = ext.
Proof.
  revert h. induction p as [|c p IH]; intros h E.
  - exists "", h. split; [reflexivity|exact E].
  - destruct h as [|a h]; [discriminate E|].
    simpl in E. rewrite append_cons in E. injection E as _ E.
    destruct (IH h E) as (front & tail & -> & Ht).
    exists (String a front), tail. split; [reflexivity|exact Ht].
Qed.

Lemma listed_extension_iff (ext : string) :
  listed_extension ext <-> In ext audio_extensions.
Proof.
  unfold listed_extension, audio_extensions. simpl.
  intuition congruence.
Qed.

Lemma listed_extension_lower (ext : string) :
  listed_extension ext -> PyStr.lower ext = ext.
Proof. intros [->|[->|[->|[->| ->]]]]; reflexivity. Qed.

(** The test of the code says what the words say: the link ends, the
    case of letters set aside, in one of the five extensions. *)
Lemma is_audio_link_iff (href : string) :
  is_audio_link href = true <-> ends_in_audio_extension href.
Proof.
  unfold is_audio_link, ends_in_audio_extension.
  rewrite existsb_exists. split.
  - intros (ext & Hin & He). apply endswith_spec in He as [p Hp].
    destruct (lower_split _ _ _ Hp) as (front & tail & Hh & Ht).
    exists front, tail, ext. split; [exact Hh|].
    split; [apply listed_extension_iff, Hin|].
    rewrite <- Ht. apply lower_same_ignoring_case.
  - intros (front & tail & ext & -> & Hext & Hsame).
    exists ext. split; [apply listed_extension_iff, Hext|].
    apply endswith_spec. exists (PyStr.lower front).
    rewrite lower_append.
    rewrite (same_ignoring_case_lower tail ext Hsame
               (listed_extension_lower ext Hext)).
    reflexivity.
Qed.

(** ** The list made of the set *)

Lemma unique_audio_links_NoDup (all_links : list string) :
  NoDup (unique_audio_links all_links).
Proof. unfold unique_audio_links. apply set_iteration_NoDup. Qed.

Lemma elem_of_unique_audio_links (all_links : list string) (href : string) :
  href ∈ unique_audio_links all_links <->
  href ∈ all_links /\ is_audio_link href = true.
Proof.
  unfold unique_audio_links.
  rewrite set_iteration_elem, list_elem_of_In, filter_In.
  rewrite <- list_elem_of_In. reflexivity.
Qed.

Lemma NoDup_only (a : string) (l : list string) :
  NoDup l -> (forall x, x ∈ l <-> x = a) -> l = [a].
Proof.
  intros Hnd Hl. destruct l as [|x l].
  - pose proof (proj2 (Hl a) eq_refl) as Hin. apply elem_of_nil in Hin. destruct Hin.
  - assert (x = a) as -> by (apply Hl; left).
    destruct l as [|y l]; [reflexivity|].
    assert (y = a) as -> by (apply Hl; right; left).
    apply NoDup_cons in Hnd as [Hnot _]. destruct Hnot. left.
Qed.

Lemma unique_audio_links_perm (all_links expected : list string) :
  NoDup expected ->
  (forall href, href ∈ expected <->
     href ∈ all_links /\ is_audio_link href = true) ->
  unique_audio_links all_links ≡ₚ expected.
Proof.
  intros Hnd Hexp. apply NoDup_Permutation;
    [apply unique_audio_links_NoDup|exact Hnd|].
  intros href. rewrite elem_of_unique_audio_links, Hexp. reflexivity.
Qed.

(** What the function does with a response. *)
Lemma find_audio_links_ok (url : string) (response : Response) (w : World) :
  requests_get url = Some response ->
  status_code response = 200 ->
  find_audio_links url w =
    (w, inr (unique_audio_links (find_all_a_href (text response)))).
Proof.
  intros Hget Hst. unfold find_audio_links, http_get, bind.
  rewrite Hget. simpl. rewrite Hst. reflexivity.
Qed.

Lemma find_audio_links_not_ok (url : string) (response : Response)
    (w : World) :
  requests_get url = Some response ->
  status_code response <> 200 ->
  find_audio_links url w =
    (set_stdout
       (fun out => out ++
          ["Error: Unable to fetch content from " +:+ url +:+
           ". Status code: " +:+ pretty (status_code response)]) w,
     inr []).
Proof.
  intros Hget Hst. unfold find_audio_links, http_get, bind.
  rewrite Hget. simpl.
  destruct (Z.eqb_spec (status_code response) 200) as [E|_]; [tauto|].
  reflexivity.
Qed.

End Discovery.

(** C6, as the program has it. For a fetched page (a response with
    status 200), discovery returns the links of the page whose whole text,
    query string and fragment included, ends in [.mp3], [.wav], [.ogg],
    [.flac] or [.aac], the case of letters set aside, each once and in no
    particular order: the result has no duplicates, and a link is in it
    exactly when it is a link of the page with such an ending. Two equal
    links to [a.mp3] give the single result [a.mp3]; [a.MP3] and [a.mp3]
    are both kept, as two results; the links [x.mp3], [y.txt], [z.flac]
    give exactly [x.mp3] and [z.flac]. *)
Theorem find_audio_links_filters_and_deduplicates
    {C : Collaborators} (url : string) (response : Response) (w : World) :
  requests_get url = Some response ->
  status_code response = 200 ->
  exists links,
    find_audio_links url w = (w, inr links)
    /\ links = unique_audio_links (find_all_a_href (text response))
    /\ NoDup links
    /\ (forall href, href ∈ links <->
          href ∈ find_all_a_href (text response) /\
          exists front tail ext,
            href = front +:+ tail /\
            (ext = ".mp3" \/ ext = ".wav" \/ ext = ".ogg" \/
             ext = ".flac" \/ ext = ".aac") /\
            same_ignoring_case tail ext)
    /\ unique_audio_links ["a.mp3"; "a.mp3"] = ["a.mp3"]
    /\ unique_audio_links ["a.MP3"; "a.mp3"] ≡ₚ ["a.MP3"; "a.mp3"]
    /\ unique_audio_links ["x.mp3"; "y.txt"; "z.flac"] ≡ₚ ["x.mp3"; "z.flac"].
Proof.
  intros Hget Hst.
  exists (unique_audio_links (find_all_a_href (text response))).
  split; [apply find_audio_links_ok; assumption|].
  split; [reflexivity|].
  split; [apply unique_audio_links_NoDup|].
  split.
  { intros href. rewrite elem_of_unique_audio_links, is_audio_link_iff.
    reflexivity. }
  split.
  { apply NoDup_only; [apply unique_audio_links_NoDup|].
    intros x. rewrite elem_of_unique_audio_links. split.
    - intros [Hin _]. apply elem_of_cons in Hin as [->|Hin]; [reflexivity|].
      apply list_elem_of_singleton in Hin. exact Hin.
    - intros ->. split; [left|reflexivity]. }
  split.
  - apply unique_audio_links_perm.
    + apply NoDup_cons. split; [|apply NoDup_singleton].
      intros Hin%list_elem_of_singleton. discriminate Hin.
    + intros href. split.
      * intros Hin. split; [exact Hin|].
        apply elem_of_cons in Hin as [->|Hin]; [reflexivity|].
        apply list_elem_of_singleton in Hin as ->. reflexivity.
      * intros [Hin _]. exact Hin.
  - apply unique_audio_links_perm.
    + apply NoDup_cons. split; [|apply NoDup_singleton].
      intros Hin%list_elem_of_singleton. discriminate Hin.
    + intros href. split.
      * intros Hin.
        apply elem_of_cons in Hin as [->|Hin];
          [split; [left|reflexivity]|].
        apply list_elem_of_singleton in Hin as ->.
        split; [right; right; left|reflexivity].
      * intros [Hin Ha].
        apply elem_of_cons in Hin as [->|Hin]; [left|].
        apply elem_of_cons in Hin as [->|Hin]; [discriminate Ha|].
        apply list_elem_of_singleton in Hin as ->. right. left.
Qed.

Lemma find_audio_links_filters_and_deduplicates_witness :
  let C := Demo.collaborators
             [(url_to_scrape, Demo.page 200 "x.mp3 y.txt z.flac x.mp3")] in
  exists links,
    find_audio_links url_to_scrape Demo.empty_world =
      (Demo.empty_world, inr links)
    /\ links ≡ₚ ["x.mp3"; "z.flac"].
Proof.
  intros C.
  destruct (find_audio_links_filters_and_deduplicates (C := C)
              url_to_scrape (Demo.page 200 "x.mp3 y.txt z.flac x.mp3")
              Demo.empty_world eq_refl eq_refl)
    as (links & Hrun & Hlinks & _).
  exists links. split; [exact Hrun|].
  rewrite Hlinks. vm_compute. apply perm_swap.
Defined.

(** C6, as it is stated, fails on the word "path": the code tests the end
    of the whole link target. The target [http://h/a.mp3?token=1] has a
    path that ends in [.mp3], and it is dropped; the target
    [http://h/get?file=a.mp3] has the path [/get], and it is kept. *)
Lemma find_audio_links_path_counterexample :
  (let C := Demo.collaborators
              [(url_to_scrape,
                Demo.page 200
                  "http://h/a.mp3?token=1 http://h/get?file=a.mp3")] in
   before_query "http://h/a.mp3?token=1" = "http://h/a.mp3"
   /\ ends_in_audio_extension (before_query "http://h/a.mp3?token=1")
   /\ before_query "http://h/get?file=a.mp3" = "http://h/get"
   /\ ~ ends_in_audio_extension (before_query "http://h/get?file=a.mp3")
   /\ find_audio_links url_to_scrape Demo.empty_world =
        (Demo.empty_world, inr ["http://h/get?file=a.mp3"]))
  /\ ~ (forall (C : Collaborators) (url : string) (response : Response)
               (w : World),
          requests_get url = Some response ->
          status_code response = 200 ->
          exists links,
            find_audio_links url w = (w, inr links) /\
            forall href, href ∈ links <->
              href ∈ find_all_a_href (text response) /\
              ends_in_audio_extension (before_query href)).
Proof.
  split.
  - intros C.
    split; [reflexivity|].
    split; [apply is_audio_link_iff; reflexivity|].
    split; [reflexivity|].
    split; [rewrite <- is_audio_link_iff; discriminate|].
    vm_compute. reflexivity.
  - intros H.
    destruct (H (Demo.collaborators
                   [(url_to_scrape, Demo.page 200 "http://h/a.mp3?token=1")])
                url_to_scrape (Demo.page 200 "http://h/a.mp3?token=1")
                Demo.empty_world eq_refl eq_refl) as (links & Hrun & Hiff).
    vm_compute in Hrun. injection Hrun as <-.
    assert ("http://h/a.mp3?token=1" ∈ @nil string) as Hin.
    { apply Hiff. split; [left|].
      apply is_audio_link_iff. reflexivity. }
    apply elem_of_nil in Hin. exact Hin.
Qed.

(** C7, as the program has it. With a response of status 200 discovery
    extracts the links of the body and prints nothing; with a response of
    any other status, the other 2xx codes included, it prints one line
    that carries the status code and returns the empty list, without
    raising. *)
Theorem find_audio_links_by_status
    {C : Collaborators} (url : string) (response : Response) (w : World) :
  requests_get url = Some response ->
  (status_code response = 200 ->
     find_audio_links url w =
       (w, inr (unique_audio_links (find_all_a_href (text response)))))
  /\ (status_code response <> 200 ->
     find_audio_links url w =
       (set_stdout
          (fun out => out ++
             ["Error: Unable to fetch content from " +:+ url +:+
              ". Status code: " +:+ pretty (status_code response)]) w,
        inr [])).
Proof.
  intros Hget. split; intros Hst.
  - apply find_audio_links_ok; assumption.
  - apply find_audio_links_not_ok; assumption.
Qed.

Lemma find_audio_links_by_status_witness :
  find_audio_links
      (C := Demo.collaborators [(url_to_scrape, Demo.page 200 "a.mp3")])
      url_to_scrape Demo.empty_world
    = (Demo.empty_world, inr ["a.mp3"])
  /\ find_audio_links
      (C := Demo.collaborators [(url_to_scrape, Demo.page 404 "a.mp3")])
      url_to_scrape Demo.empty_world
    = (set_stdout
         (fun _ =>
            ["Error: Unable to fetch content from " +:+ url_to_scrape +:+
             ". Status code: 404"]) Demo.empty_world,
       inr []).
Proof.
  split.
  - exact (proj1 (find_audio_links_by_status
                    (C := Demo.collaborators
                            [(url_to_scrape, Demo.page 200 "a.mp3")])
                    url_to_scrape (Demo.page 200 "a.mp3") Demo.empty_world
                    eq_refl) eq_refl).
  - exact (proj2 (find_audio_links_by_status
                    (C := Demo.collaborators
                            [(url_to_scrape, Demo.page 404 "a.mp3")])
                    url_to_scrape (Demo.page 404 "a.mp3") Demo.empty_world
                    eq_refl) ltac:(discriminate)).
Defined.

(** C7, as the specification states it, fails: a response with status 203
    is a 2xx response, yet discovery does not extract the link of its
    body; it prints the error line and returns the empty list. *)
Lemma find_audio_links_2xx_counterexample :
  ~ (forall (C : Collaborators) (url : string) (response : Response)
            (w : World),
       requests_get url = Some response ->
       200 <= status_code response < 300 ->
       find_audio_links url w =
         (w, inr (unique_audio_links (find_all_a_href (text response))))).
Proof.
  intros H.
  specialize (H (Demo.collaborators [(url_to_scrape, Demo.page 203 "a.mp3")])
                url_to_scrape (Demo.page 203 "a.mp3") Demo.empty_world
                eq_refl ltac:(simpl; lia)).
  vm_compute in H. discriminate H.
Qed.

(* ===================================================================== *)
(** * Properties of the upsert *)
(* ===================================================================== *)

Section CountRows.

Lemma count_rows_nonneg url rows : 0 <= count_rows url rows.
Proof. unfold count_rows. lia. Qed.

Lemma count_rows_app url rows1 rows2 :
  count_rows url (rows1 ++ rows2) = count_rows url rows1 + count_rows url rows2.
Proof.
  unfold count_rows. rewrite List.filter_app, length_app. lia.
Qed.

Lemma count_rows_singleton url row :
  count_rows url [row] = if matches url row then 1 else 0.
Proof. unfold count_rows. simpl. destruct (matches url row); reflexivity. Qed.

Lemma gcp_url_update_row new row : gcp_url (update_row new row) = gcp_url row.
Proof. unfold update_row. destruct (matches _ row); reflexivity. Qed.

Lemma matches_update_row url new row :
  matches url (update_row new row) = matches url row.
Proof. unfold matches. rewrite gcp_url_update_row. reflexivity. Qed.

Lemma filter_map_update_row url new rows :
  List.filter (matches url) (map (update_row new) rows) =
  map (update_row new) (List.filter (matches url) rows).
Proof.
  induction rows as [|r rows IH]; [reflexivity|].
  simpl. rewrite matches_update_row.
  destruct (matches url r); simpl; rewrite IH; reflexivity.
Qed.

Lemma count_rows_map_update_row url new rows :
  count_rows url (map (update_row new) rows) = count_rows url rows.
Proof.
  unfold count_rows. rewrite filter_map_update_row, length_map. reflexivity.
Qed.

Lemma count_rows_zero_filter url rows :
  count_rows url rows = 0 -> List.filter (matches url) rows = [].
Proof.
  unfold count_rows. destruct (List.filter _ rows); [reflexivity|].
  simpl. lia.
Qed.

(** The rows the [WHERE] clause selects are the rows that carry the
    locator. *)
Lemma rows_with_filter url rows :
  rows_with url rows = List.filter (matches url) rows.
Proof.
  unfold rows_with. induction rows as [|r rows IH]; [reflexivity|].
  rewrite filter_cons. simpl. unfold matches at 1.
  destruct (String.eqb_spec (gcp_url r) url) as [E|E]; case_decide;
    try contradiction; rewrite IH; reflexivity.
Qed.

Lemma count_rows_rows_with url rows :
  count_rows url rows = Z.of_nat (length (rows_with url rows)).
Proof. unfold count_rows. rewrite rows_with_filter. reflexivity. Qed.

Lemma count_rows_zero_iff url rows :
  (count_rows url rows =? 0) = true <-> rows_with url rows = [].
Proof.
  rewrite count_rows_rows_with, Z.eqb_eq.
  destruct (rows_with url rows); simpl; split; intros H;
    try reflexivity; try discriminate H; lia.
Qed.

Lemma rows_with_app url rows1 rows2 :
  rows_with url (rows1 ++ rows2) = rows_with url rows1 ++ rows_with url rows2.
Proof. unfold rows_with. apply filter_app. Qed.

Lemma rows_with_nil_iff url rows :
  rows_with url rows = [] <-> url ∉ map gcp_url rows.
Proof.
  unfold rows_with. induction rows as [|r rows IH]; simpl.
  - split; [intros _ H; apply elem_of_nil in H; exact H|reflexivity].
  - rewrite filter_cons, not_elem_of_cons. case_decide as E.
    + split; [discriminate|]. intros [Hne _]. congruence.
    + rewrite IH. split; [intros H; split; [congruence|exact H]|tauto].
Qed.

Lemma map_gcp_url_update_row new rows :
  map gcp_url (map (update_row new) rows) = map gcp_url rows.
Proof.
  induction rows as [|r rows IH]; [reflexivity|].
  simpl. rewrite gcp_url_update_row, IH. reflexivity.
Qed.

Lemma upsert_rows_absent row rows :
  rows_with (gcp_url row) rows = [] -> upsert_rows row rows = rows ++ [row].
Proof.
  intros H. unfold upsert_rows.
  rewrite (proj2 (count_rows_zero_iff _ _) H). reflexivity.
Qed.

Lemma upsert_rows_present row rows :
  rows_with (gcp_url row) rows <> [] ->
  upsert_rows row rows = map (update_row row) rows.
Proof.
  intros H. unfold upsert_rows.
  destruct (count_rows (gcp_url row) rows =? 0) eqn:E; [|reflexivity].
  apply count_rows_zero_iff in E. contradiction.
Qed.

Lemma upsert_job_absent tid row rows :
  rows_with (gcp_url row) rows = [] ->
  upsert_job tid row rows = InsertJob tid row.
Proof.
  intros H. unfold upsert_job.
  rewrite (proj2 (count_rows_zero_iff _ _) H). reflexivity.
Qed.

Lemma upsert_job_present tid row rows :
  rows_with (gcp_url row) rows <> [] ->
  upsert_job tid row rows = UpdateJob tid row.
Proof.
  intros H. unfold upsert_job.
  destruct (count_rows (gcp_url row) rows =? 0) eqn:E; [|reflexivity].
  apply count_rows_zero_iff in E. contradiction.
Qed.

(** An upsert that is carried out on the rows it counted keeps a table
    free of duplicate locators. *)
Lemma upsert_rows_one_row_per_locator row rows :
  one_row_per_locator rows -> one_row_per_locator (upsert_rows row rows).
Proof.
  unfold one_row_per_locator. intros Hok.
  destruct (decide (rows_with (gcp_url row) rows = [])) as [Hz|Hnz].
  - rewrite (upsert_rows_absent _ _ Hz), map_app. simpl.
    apply NoDup_app. split; [exact Hok|]. split; [|apply NoDup_singleton].
    intros u Hu Hin. apply list_elem_of_singleton in Hin. subst u.
    apply rows_with_nil_iff in Hz. contradiction.
  - rewrite (upsert_rows_present _ _ Hnz), map_gcp_url_update_row. exact Hok.
Qed.

(** Two rows of one locator are one too many. *)
Lemma two_rows_not_one_per_locator url rows r1 r2 rest :
  rows_with url rows = r1 :: r2 :: rest -> ~ one_row_per_locator rows.
Proof.
  unfold one_row_per_locator, rows_with.
  revert r1 r2 rest. induction rows as [|r rows IH]; intros r1 r2 rest.
  - discriminate.
  - rewrite filter_cons. case_decide as E.
    + intros [= <- Hrest] Hnd. simpl in Hnd.
      apply NoDup_cons in Hnd as [Hnot _]. apply Hnot.
      assert (r2 ∈ filter (fun row => gcp_url row = url) rows) as Hin
        by (rewrite Hrest; left).
      apply list_elem_of_filter in Hin as [Hu Hin].
      rewrite E, <- Hu. apply list_elem_of_fmap_2. exact Hin.
    + intros Hf Hnd. simpl in Hnd. apply NoDup_cons in Hnd as [_ Hnd].
      exact (IH _ _ _ Hf Hnd).
Qed.

(** After an insert of [r1] where the locator was absent and an upsert of
    [r2] with the same locator on the rows the insert left, the rows of
    the locator are [r2] alone. *)
Lemma upsert_rows_twice r1 r2 rows :
  gcp_url r2 = gcp_url r1 ->
  rows_with (gcp_url r1) rows = [] ->
  upsert_rows r1 rows = rows ++ [r1] /\
  upsert_rows r2 (rows ++ [r1]) = map (update_row r2) (rows ++ [r1]) /\
  rows_with (gcp_url r1) (map (update_row r2) (rows ++ [r1])) = [r2].
Proof.
  intros Hu Hz.
  split; [apply upsert_rows_absent, Hz|].
  split.
  { apply upsert_rows_present. rewrite Hu, rows_with_app, Hz. simpl.
    unfold rows_with. rewrite filter_cons. case_decide; [discriminate|].
    congruence. }
  rewrite rows_with_filter, filter_map_update_row, <- rows_with_filter.
  rewrite rows_with_app, Hz. simpl.
  unfold rows_with. rewrite filter_cons, filter_nil.
  case_decide; [|congruence]. simpl.
  unfold update_row, matches. rewrite Hu, String.eqb_refl.
  destruct r2 as [u2 f2 d2 l2 c2]. simpl in *. subst u2. reflexivity.
Qed.

End CountRows.

Section Jobs.

Lemma apply_jobs_snoc js j T :
  apply_jobs (js ++ [j]) T = apply_job j (apply_jobs js T).
Proof. unfold apply_jobs. rewrite fold_left_app. reflexivity. Qed.

Lemma apply_jobs_cons j js T :
  apply_jobs (j :: js) T = apply_jobs js (apply_job j T).
Proof. reflexivity. Qed.

Lemma apply_jobs_nil T : apply_jobs [] T = T.
Proof. reflexivity. Qed.

Lemma tables_settle w : tables (settle w) = apply_jobs (pending w) (tables w).
Proof.
  unfold settle, store_progress. simpl. rewrite firstn_all. reflexivity.
Qed.

Lemma pending_settle w : pending (settle w) = [].
Proof. unfold settle, store_progress. simpl. apply drop_all. Qed.

Lemma settle_nothing_pending w : pending w = [] -> settle w = w.
Proof.
  destruct w as [e f o T js out]. simpl. intros ->. reflexivity.
Qed.

Lemma resolve_ref_split tid p d t :
  PyStr.split "." tid = [p; d; t] -> resolve_ref tid = Some (p, d, t).
Proof. intros H. unfold resolve_ref. rewrite H. reflexivity. Qed.

(** A job that is carried out on the rows it was decided on is the
    upsert of the row. *)
Lemma apply_job_upsert_job tid ref row rows T :
  resolve_ref tid = Some ref ->
  T !! ref = Some rows ->
  apply_job (upsert_job tid row rows) T = <[ref := upsert_rows row rows]> T.
Proof.
  intros Href Hrows. unfold upsert_job, upsert_rows.
  destruct (count_rows (gcp_url row) rows =? 0); simpl;
    rewrite Href, Hrows; reflexivity.
Qed.

Lemma apply_job_insert tid ref row rows T :
  resolve_ref tid = Some ref ->
  T !! ref = Some rows ->
  apply_job (InsertJob tid row) T = <[ref := rows ++ [row]]> T.
Proof. intros Href Hrows. simpl. rewrite Href, Hrows. reflexivity. Qed.

Lemma apply_job_update tid ref row rows T :
  resolve_ref tid = Some ref ->
  T !! ref = Some rows ->
  apply_job (UpdateJob tid row) T = <[ref := map (update_row row) rows]> T.
Proof. intros Href Hrows. simpl. rewrite Href, Hrows. reflexivity. Qed.

Lemma tables_ok_insert ref rows T :
  tables_ok T -> one_row_per_locator rows -> tables_ok (<[ref := rows]> T).
Proof.
  intros HT Hrows ref' rows'. rewrite lookup_insert. case_decide.
  - intros [= <-]. exact Hrows.
  - apply HT.
Qed.

End Jobs.

Section Upsert.
Context {C : Collaborators}.

(** Unfolding the monad and the store operations of the upsert. *)
Ltac run_upsert_code :=
  cbv [insert_into_bigquery environ_set client_of_environ index try_except
       get_table create_table query_count query_insert query_update start_job
       rows_of resolve bind ret raise get_world modify].

(** No client: the constructor raises once the variable is set. *)
Lemma insert_into_bigquery_no_client key tid url fn dur l c (w : World) :
  client_loads key = false ->
  insert_into_bigquery key tid url fn dur l c w =
    (set_environ (insert GOOGLE_APPLICATION_CREDENTIALS key) w,
     inl DefaultCredentialsError).
Proof.
  intros Hload. run_upsert_code. simpl.
  rewrite lookup_insert_eq. simpl. rewrite Hload. reflexivity.
Qed.

(** The whole function, for a client that could be built and a table
    identifier of three parts. *)
Lemma insert_into_bigquery_run key tid p d t url fn dur l c (w : World) :
  client_loads key = true ->
  PyStr.split "." tid = [p; d; t] ->
  insert_into_bigquery key tid url fn dur l c w =
    let w2 := ensured key d t w in
    match tables w2 !! (p, d, t) with
    | Some rows =>
        (set_pending
           (fun jobs =>
              jobs ++ [upsert_job tid (mkAudioRecord url fn dur l c) rows])
           w2,
         inr (confirmation url c))
    | None => (w2, inl (NotFound tid))
    end.
Proof.
  intros Hload Hsplit.
  unfold ensured, upsert_job. run_upsert_code. unfold resolve_ref.
  rewrite Hsplit. simpl.
  rewrite lookup_insert_eq. simpl. rewrite Hload. simpl.
  destruct (tables w !! (client_project key, d, t)) as [rows0|] eqn:Hex; simpl;
    rewrite ?Hex; simpl.
  - destruct (tables w !! (p, d, t)) as [rows|] eqn:Hrows; simpl;
      rewrite ?Hrows; simpl; [|reflexivity].
    destruct (count_rows url rows =? 0); reflexivity.
  - destruct (<[(client_project key, d, t):=[]]> (tables w) !! (p, d, t))
      as [rows|] eqn:Hrows; simpl; rewrite ?Hrows; simpl; [|reflexivity].
    destruct (count_rows url rows =? 0); reflexivity.
Qed.

(** A call on a table of the client's own project: what it returns and
    what it leaves, part by part. The table holds what it held; the one
    job of the call is added to the pending ones. *)
Lemma insert_into_bigquery_call key tid p d t url fn dur l c (w : World) :
  PyStr.split "." tid = [p; d; t] ->
  client_loads key = true ->
  client_project key = p ->
  let rows := default [] (tables w !! (p, d, t)) in
  exists w1,
    insert_into_bigquery key tid url fn dur l c w
      = (w1, inr (confirmation url c))
    /\ tables w1 = <[(p, d, t) := rows]> (tables w)
    /\ pending w1 =
         pending w ++ [upsert_job tid (mkAudioRecord url fn dur l c) rows]
    /\ environ w1 = <[GOOGLE_APPLICATION_CREDENTIALS := key]> (environ w)
    /\ files w1 = files w /\ objects w1 = objects w /\ stdout w1 = stdout w.
Proof.
  intros Hsplit Hload Hproj rows. subst rows.
  rewrite (insert_into_bigquery_run _ _ _ _ _ _ _ _ _ _ _ Hload Hsplit).
  cbv zeta. unfold ensured. rewrite Hproj.
  destruct (tables w !! (p, d, t)) as [rows|] eqn:Hrows; simpl.
  - rewrite Hrows. eexists. split; [reflexivity|]. simpl.
    rewrite (insert_id _ _ _ Hrows). repeat split; reflexivity.
  - rewrite lookup_insert_eq. eexists. split; [reflexivity|]. simpl.
    repeat split; reflexivity.
Qed.

(** What any call leaves in the table store: at most one new, empty
    table; and, when the call returns, one job more, decided on the rows
    its table held when the call counted them. A call that raises starts
    nothing. *)
Lemma insert_into_bigquery_effect key tid url fn dur l c (w : World) :
  exists w' res,
    insert_into_bigquery key tid url fn dur l c w = (w', res)
    /\ (tables w' = tables w \/
        exists ref0, tables w !! ref0 = None /\
                     tables w' = <[ref0 := []]> (tables w))
    /\ match res with
       | inl _ => pending w' = pending w
       | inr msg =>
           msg = confirmation url c /\
           exists ref rows,
             resolve_ref tid = Some ref /\ tables w' !! ref = Some rows /\
             pending w' =
               pending w ++
               [upsert_job tid (mkAudioRecord url fn dur l c) rows]
       end.
Proof.
  destruct (client_loads key) eqn:Hload.
  2:{ rewrite (insert_into_bigquery_no_client _ _ _ _ _ _ _ _ Hload).
      eexists _, _. split; [reflexivity|]. simpl.
      split; [left; reflexivity|reflexivity]. }
  destruct (PyStr.split "." tid) as [|p [|d [|t rest]]] eqn:Hsplit.
  1-3: run_upsert_code; simpl; rewrite lookup_insert_eq; simpl;
       rewrite Hload, Hsplit; simpl; eexists _, _;
       (split; [reflexivity|]); simpl;
       (split; [left; reflexivity|reflexivity]).
  destruct rest as [|x rest].
  - rewrite (insert_into_bigquery_run _ _ _ _ _ _ _ _ _ _ _ Hload Hsplit).
    cbv zeta.
    assert (tables (ensured key d t w) = tables w \/
            exists ref0, tables w !! ref0 = None /\
              tables (ensured key d t w) = <[ref0 := []]> (tables w)) as Hens.
    { unfold ensured.
      destruct (tables w !! (client_project key, d, t)) eqn:E; simpl;
        [left; reflexivity|right; eexists; split; [exact E|reflexivity]]. }
    assert (pending (ensured key d t w) = pending w) as Hpend.
    { unfold ensured. destruct (tables w !! _); reflexivity. }
    destruct (tables (ensured key d t w) !! (p, d, t)) as [rows|] eqn:Hrows.
    + eexists _, _. split; [reflexivity|]. simpl.
      split; [exact Hens|]. split; [reflexivity|].
      exists (p, d, t), rows.
      split; [apply resolve_ref_split, Hsplit|].
      split; [exact Hrows|]. rewrite Hpend. reflexivity.
    + eexists _, _. split; [reflexivity|]. simpl.
      split; [exact Hens|exact Hpend].
  - run_upsert_code. unfold resolve_ref. simpl.
    rewrite lookup_insert_eq. simpl. rewrite Hload, Hsplit. simpl.
    destruct (tables w !! (client_project key, d, t)) eqn:E; simpl;
      rewrite ?E; simpl; eexists _, _; (split; [reflexivity|]); simpl.
    + split; [left; reflexivity|reflexivity].
    + split; [right; eexists; split; [exact E|reflexivity]|reflexivity].
Qed.

Lemma tables_ok_created T T' :
  tables_ok T ->
  (T' = T \/ exists ref0, T !! ref0 = None /\ T' = <[ref0 := []]> T) ->
  tables_ok T'.
Proof.
  intros HT [->|(ref0 & _ & ->)]; [exact HT|].
  apply tables_ok_insert; [exact HT|]. apply NoDup_nil_2.
Qed.

(** One upsert, and then the store at rest. *)
Lemma run_upsert_settled_ok (u : Upsert) (w : World) :
  pending w = [] -> store_ok w ->
  store_ok (fst ((run_upsert u ;; store_settles) w))
  /\ pending (fst ((run_upsert u ;; store_settles) w)) = [].
Proof.
  intros Hpend Hok. unfold run_upsert, store_settles, bind, modify, ret.
  destruct (insert_into_bigquery_effect (upsert_key_file_path u)
              (upsert_table_id u) (gcp_url (upsert_record u))
              (file_name (upsert_record u)) (duration_ms (upsert_record u))
              (loudness (upsert_record u))
              (classification (upsert_record u)) w)
    as (w' & res & -> & Htab & Hres).
  pose proof (tables_ok_created _ _ Hok Htab) as Hok'.
  destruct res as [e|msg]; simpl.
  - split; [exact Hok'|]. rewrite Hres. exact Hpend.
  - split; [|apply pending_settle].
    destruct Hres as (_ & ref & rows & Href & Hrows & Hjobs).
    unfold store_ok. rewrite tables_settle, Hjobs, Hpend.
    rewrite app_nil_l, apply_jobs_cons, apply_jobs_nil.
    rewrite (apply_job_upsert_job _ _ _ _ _ Href Hrows).
    apply tables_ok_insert; [exact Hok'|].
    apply upsert_rows_one_row_per_locator. exact (Hok' _ _ Hrows).
Qed.

Lemma run_upserts_settled_ok (us : list Upsert) (w : World) :
  pending w = [] -> store_ok w ->
  store_ok (fst (run_upserts_settled us w))
  /\ pending (fst (run_upserts_settled us w)) = [].
Proof.
  revert w. induction us as [|u us IH]; intros w Hpend Hok;
    [split; assumption|].
  unfold run_upserts_settled. cbn [for_each].
  destruct (run_upsert_settled_ok u w Hpend Hok) as [Hok' Hpend'].
  set (m := run_upsert u ;; store_settles) in *. unfold bind.
  destruct (m w) as [w' [e|[]]]; [split; assumption|].
  apply IH; assumption.
Qed.

(** Two calls for one locator, the second before the store has carried
    out the job of the first: both find no row, both start an insert, and
    the table ends with a row of each. *)
Lemma insert_into_bigquery_twice_unsettled
    key tid p d t url fn dur l c fn2 dur2 l2 c2 (w : World) :
  PyStr.split "." tid = [p; d; t] ->
  client_loads key = true ->
  client_project key = p ->
  pending w = [] ->
  let rows := default [] (tables w !! (p, d, t)) in
  let row := mkAudioRecord url fn dur l c in
  let row2 := mkAudioRecord url fn2 dur2 l2 c2 in
  rows_with url rows = [] ->
  exists w1 w2,
    insert_into_bigquery key tid url fn dur l c w
      = (w1, inr (confirmation url c))
    /\ insert_into_bigquery key tid url fn2 dur2 l2 c2 w1
      = (w2, inr (confirmation url c2))
    /\ pending w2 = [InsertJob tid row; InsertJob tid row2]
    /\ tables w2 = <[(p, d, t) := rows]> (tables w)
    /\ tables (settle w2) = <[(p, d, t) := rows ++ [row; row2]]> (tables w).
Proof.
  intros Hsplit Hload Hproj Hpend rows row row2 Hz.
  destruct (insert_into_bigquery_call key tid p d t url fn dur l c w
              Hsplit Hload Hproj)
    as (w1 & Hrun1 & Htab1 & Hpend1 & _).
  destruct (insert_into_bigquery_call key tid p d t url fn2 dur2 l2 c2 w1
              Hsplit Hload Hproj)
    as (w2 & Hrun2 & Htab2 & Hpend2 & _).
  fold rows in Htab1, Hpend1. fold row in Hpend1.
  rewrite Htab1, lookup_insert_eq in Htab2, Hpend2. simpl in Htab2, Hpend2.
  rewrite insert_insert_eq in Htab2.
  fold row2 in Hpend2.
  rewrite Hpend1, Hpend in Hpend2. simpl in Hpend2.
  rewrite (upsert_job_absent tid row rows Hz),
          (upsert_job_absent tid row2 rows Hz) in Hpend2.
  exists w1, w2. split; [exact Hrun1|]. split; [exact Hrun2|].
  split; [exact Hpend2|]. split; [exact Htab2|].
  rewrite tables_settle, Hpend2, Htab2. rewrite ?apply_jobs_cons, apply_jobs_nil.
  pose proof (resolve_ref_split _ _ _ _ Hsplit) as Href.
  rewrite (apply_job_insert tid (p, d, t) row rows) by
    (try exact Href; apply lookup_insert_eq).
  rewrite (apply_job_insert tid (p, d, t) row2 (rows ++ [row])) by
    (try exact Href; apply lookup_insert_eq).
  rewrite !insert_insert_eq, <- app_assoc. reflexivity.
Qed.

(** Two calls for one locator, the store having carried out the job of
    the first when the second begins: the second finds the row and
    starts an update, and the locator ends with one row, of the second
    record. *)
Lemma insert_into_bigquery_twice_settled
    key tid p d t url fn dur l c fn2 dur2 l2 c2 (w : World) :
  PyStr.split "." tid = [p; d; t] ->
  client_loads key = true ->
  client_project key = p ->
  pending w = [] ->
  let rows := default [] (tables w !! (p, d, t)) in
  let row := mkAudioRecord url fn dur l c in
  let row2 := mkAudioRecord url fn2 dur2 l2 c2 in
  rows_with url rows = [] ->
  exists w1 w2,
    insert_into_bigquery key tid url fn dur l c w
      = (w1, inr (confirmation url c))
    /\ tables (settle w1) = <[(p, d, t) := rows ++ [row]]> (tables w)
    /\ insert_into_bigquery key tid url fn2 dur2 l2 c2 (settle w1)
      = (w2, inr (confirmation url c2))
    /\ pending w2 = [UpdateJob tid row2]
    /\ tables (settle w2) =
         <[(p, d, t) := map (update_row row2) (rows ++ [row])]> (tables w)
    /\ rows_with url (map (update_row row2) (rows ++ [row])) = [row2].
Proof.
  intros Hsplit Hload Hproj Hpend rows row row2 Hz.
  pose proof (resolve_ref_split _ _ _ _ Hsplit) as Href.
  destruct (insert_into_bigquery_call key tid p d t url fn dur l c w
              Hsplit Hload Hproj)
    as (w1 & Hrun1 & Htab1 & Hpend1 & _).
  fold rows in Htab1, Hpend1. fold row in Hpend1.
  rewrite Hpend in Hpend1. simpl in Hpend1.
  rewrite (upsert_job_absent tid row rows Hz) in Hpend1.
  assert (tables (settle w1) = <[(p, d, t) := rows ++ [row]]> (tables w))
    as Hset1.
  { rewrite tables_settle, Hpend1, Htab1. rewrite ?apply_jobs_cons, apply_jobs_nil.
    rewrite (apply_job_insert tid (p, d, t) row rows) by
      (try exact Href; apply lookup_insert_eq).
    apply insert_insert_eq. }
  destruct (insert_into_bigquery_call key tid p d t url fn2 dur2 l2 c2
              (settle w1) Hsplit Hload Hproj)
    as (w2 & Hrun2 & Htab2 & Hpend2 & _).
  rewrite pending_settle in Hpend2.
  rewrite Hset1, lookup_insert_eq in Htab2, Hpend2. simpl in Htab2, Hpend2.
  rewrite insert_insert_eq in Htab2. fold row2 in Hpend2.
  destruct (upsert_rows_twice row row2 rows eq_refl Hz) as (_ & _ & Hone).
  simpl in Hone.
  rewrite (upsert_job_present tid row2 (rows ++ [row])) in Hpend2.
  2:{ simpl. rewrite rows_with_app, Hz. simpl. unfold rows_with.
      rewrite filter_cons. case_decide as E; [discriminate|].
      destruct E. reflexivity. }
  exists w1, w2. split; [exact Hrun1|]. split; [exact Hset1|].
  split; [exact Hrun2|]. split; [exact Hpend2|].
  split; [|exact Hone].
  rewrite tables_settle, Hpend2, Htab2. rewrite ?apply_jobs_cons, apply_jobs_nil.
  rewrite (apply_job_update tid (p, d, t) row2 (rows ++ [row])) by
    (try exact Href; apply lookup_insert_eq).
  apply insert_insert_eq.
Qed.

End Upsert.

(** C1, as the program has it. For a table identifier [p.d.t] in the
    project of the credentials, an upsert first reads the count of the
    rows of the table that carry the record's locator, and then starts
    one job without waiting for it: an insert of the full five-field
    record when no row carries the locator, an update otherwise. The call
    returns its confirmation with the table as it was; the job is
    pending. Once the store has carried the job out, the insert has
    appended the record, and the update has given every row with that
    locator the record's file name, duration, loudness and classification
    and left every other row as it is. Hence, after an insert of a record
    whose locator was absent and an upsert of a second record with the
    same locator: if the store has carried out the first job when the
    second call begins, the second call starts an update and the table
    ends with exactly one row for the locator, with the fields of the
    second record; if it has not, the second call counts zero rows too
    and starts a second insert, and the table ends with two rows for the
    locator, the first record's and the second's. *)
Theorem insert_into_bigquery_upserts
    {C : Collaborators} (key tid p d t url fn : string) (dur : Z)
    (l : spec_float) (c : string) (w : World) :
  PyStr.split "." tid = [p; d; t] ->
  client_loads key = true ->
  client_project key = p ->
  pending w = [] ->
  let rows := default [] (tables w !! (p, d, t)) in
  let row := mkAudioRecord url fn dur l c in
  exists w1,
    insert_into_bigquery key tid url fn dur l c w
      = (w1, inr (confirmation url c))
    /\ tables w1 = <[(p, d, t) := rows]> (tables w)
    /\ pending w1 =
         [if decide (rows_with url rows = []) then InsertJob tid row
          else UpdateJob tid row]
    /\ tables (settle w1) =
         <[(p, d, t) :=
             if decide (rows_with url rows = []) then rows ++ [row]
             else map (update_row row) rows]> (tables w)
    /\ (forall r,
          update_row row r =
            if decide (gcp_url r = url)
            then mkAudioRecord (gcp_url r) fn dur l c else r)
    /\ (rows_with url rows = [] ->
        forall fn2 dur2 l2 c2,
          let row2 := mkAudioRecord url fn2 dur2 l2 c2 in
          (exists w2,
             insert_into_bigquery key tid url fn2 dur2 l2 c2 (settle w1)
               = (w2, inr (confirmation url c2))
             /\ pending w2 = [UpdateJob tid row2]
             /\ rows_with url (default [] (tables (settle w2) !! (p, d, t)))
                = [row2])
          /\ (exists w2,
                insert_into_bigquery key tid url fn2 dur2 l2 c2 w1
                  = (w2, inr (confirmation url c2))
                /\ pending w2 = [InsertJob tid row; InsertJob tid row2]
                /\ rows_with url
                     (default [] (tables (settle w2) !! (p, d, t)))
                   = [row; row2])).
Proof.
  intros Hsplit Hload Hproj Hpend rows row.
  pose proof (resolve_ref_split _ _ _ _ Hsplit) as Href.
  destruct (insert_into_bigquery_call key tid p d t url fn dur l c w
              Hsplit Hload Hproj)
    as (w1 & Hrun1 & Htab1 & Hpend1 & _).
  fold rows in Htab1, Hpend1. fold row in Hpend1.
  rewrite Hpend in Hpend1. rewrite app_nil_l in Hpend1.
  exists w1. split; [exact Hrun1|]. split; [exact Htab1|].
  split.
  { rewrite Hpend1. case_decide as Hz.
    - rewrite (upsert_job_absent tid row rows Hz). reflexivity.
    - rewrite (upsert_job_present tid row rows Hz). reflexivity. }
  split.
  { rewrite tables_settle, Hpend1, Htab1, apply_jobs_cons, apply_jobs_nil.
    rewrite (apply_job_upsert_job tid (p, d, t) row rows) by
      (try exact Href; apply lookup_insert_eq).
    rewrite insert_insert_eq. case_decide as Hz.
    - rewrite (upsert_rows_absent row rows Hz). reflexivity.
    - rewrite (upsert_rows_present row rows Hz). reflexivity. }
  split.
  { intros r. unfold update_row, matches. simpl.
    destruct (String.eqb_spec (gcp_url r) url); case_decide;
      try contradiction; reflexivity. }
  intros Hz fn2 dur2 l2 c2 row2. split.
  - destruct (insert_into_bigquery_twice_settled key tid p d t url fn dur l c
                fn2 dur2 l2 c2 w Hsplit Hload Hproj Hpend Hz)
      as (w1' & w2 & Hrun1' & _ & Hrun2 & Hpend2 & Htab2 & Hone).
    rewrite Hrun1 in Hrun1'. injection Hrun1' as <-.
    exists w2. split; [exact Hrun2|]. split; [exact Hpend2|].
    rewrite Htab2, lookup_insert_eq. exact Hone.
  - destruct (insert_into_bigquery_twice_unsettled key tid p d t url fn dur l
                c fn2 dur2 l2 c2 w Hsplit Hload Hproj Hpend Hz)
      as (w1' & w2 & Hrun1' & Hrun2 & Hpend2 & _ & Htab2).
    rewrite Hrun1 in Hrun1'. injection Hrun1' as <-.
    exists w2. split; [exact Hrun2|]. split; [exact Hpend2|].
    rewrite Htab2, lookup_insert_eq. simpl.
    rewrite rows_with_app. fold rows. rewrite Hz. simpl.
    unfold rows_with. rewrite !filter_cons, filter_nil.
    repeat case_decide; try (exfalso; auto; fail). reflexivity.
Qed.

Lemma insert_into_bigquery_upserts_witness :
  let C := Demo.collaborators [] in
  let row := mkAudioRecord "L1" "a.mp3" 1000 PyFloat.minus_19_9 HighEnergy in
  let row2 := mkAudioRecord "L1" "a.mp3" 70000 PyFloat.minus_20 LowEnergy in
  let ref := (project_id, "audio_files", "audio_metadata") in
  exists w1 w2 w2',
    insert_into_bigquery key_file_path table_id "L1" "a.mp3" 1000
        PyFloat.minus_19_9 HighEnergy Demo.empty_world
      = (w1, inr (confirmation "L1" HighEnergy))
    /\ pending w1 = [InsertJob table_id row]
    /\ insert_into_bigquery key_file_path table_id "L1" "a.mp3" 70000
        PyFloat.minus_20 LowEnergy (settle w1)
      = (w2, inr (confirmation "L1" LowEnergy))
    /\ rows_with "L1" (default [] (tables (settle w2) !! ref)) = [row2]
    /\ insert_into_bigquery key_file_path table_id "L1" "a.mp3" 70000
        PyFloat.minus_20 LowEnergy w1
      = (w2', inr (confirmation "L1" LowEnergy))
    /\ rows_with "L1" (default [] (tables (settle w2') !! ref)) = [row; row2].
Proof.
  intros C row row2 ref.
  destruct (insert_into_bigquery_upserts (C := C) key_file_path table_id
              project_id "audio_files" "audio_metadata" "L1" "a.mp3" 1000
              PyFloat.minus_19_9 HighEnergy Demo.empty_world
              eq_refl eq_refl eq_refl eq_refl)
    as (w1 & Hrun1 & _ & Hpend1 & _ & _ & Hsecond).
  destruct (Hsecond eq_refl "a.mp3" 70000 PyFloat.minus_20 LowEnergy)
    as ((w2 & Hrun2 & _ & Hone) & (w2' & Hrun2' & _ & Htwo)).
  exists w1, w2, w2'.
  split; [exact Hrun1|]. split; [exact Hpend1|].
  split; [exact Hrun2|]. split; [exact Hone|].
  split; [exact Hrun2'|exact Htwo].
Defined.

(** C2, as the program has it. Along a sequential run of upserts in
    which the store has carried out the job of each upsert when the next
    one begins, the table store keeps at most one row per locator: if
    every table has at most one row for each locator before the run and
    no job is pending, the same holds after it, however many upserts the
    run makes, on whatever tables and records, and whether or not one of
    them raises. The program does not wait for its jobs, and without the
    wait the invariant is lost: two upserts in a row of two records with
    one locator that no row of the table carries both return, both have
    counted zero rows, and once the store has carried out their two
    inserts the table has two rows for the locator. *)
Theorem run_upserts_one_row_per_locator
    {C : Collaborators} (us : list Upsert) (w : World) :
  pending w = [] ->
  store_ok w ->
  (store_ok (fst (run_upserts_settled us w))
   /\ pending (fst (run_upserts_settled us w)) = [])
  /\ forall key tid p d t r1 r2,
       PyStr.split "." tid = [p; d; t] ->
       client_loads key = true ->
       client_project key = p ->
       gcp_url r2 = gcp_url r1 ->
       rows_with (gcp_url r1) (default [] (tables w !! (p, d, t))) = [] ->
       exists w',
         run_upserts [mkUpsert key tid r1; mkUpsert key tid r2] w
           = (w', inr tt)
         /\ store_ok w'
         /\ pending w' = [InsertJob tid r1; InsertJob tid r2]
         /\ rows_with (gcp_url r1)
              (default [] (tables (settle w') !! (p, d, t))) = [r1; r2]
         /\ ~ store_ok (settle w').
Proof.
  intros Hpend Hok. split; [apply run_upserts_settled_ok; assumption|].
  intros key tid p d t r1 r2 Hsplit Hload Hproj Hu Hz.
  destruct (insert_into_bigquery_twice_unsettled key tid p d t (gcp_url r1)
              (file_name r1) (duration_ms r1) (loudness r1)
              (classification r1) (file_name r2) (duration_ms r2)
              (loudness r2) (classification r2) w Hsplit Hload Hproj Hpend Hz)
    as (w1 & w2 & Hrun1 & Hrun2 & Hpend2 & Htab2 & Hset2).
  assert (mkAudioRecord (gcp_url r1) (file_name r1) (duration_ms r1)
            (loudness r1) (classification r1) = r1) as E1
    by (destruct r1; reflexivity).
  assert (mkAudioRecord (gcp_url r1) (file_name r2) (duration_ms r2)
            (loudness r2) (classification r2) = r2) as E2
    by (rewrite <- Hu; destruct r2; reflexivity).
  rewrite E1, E2 in Hpend2, Hset2.
  assert (rows_with (gcp_url r1)
            (default [] (tables (settle w2) !! (p, d, t))) = [r1; r2])
    as Hrows.
  { rewrite Hset2, lookup_insert_eq. simpl. rewrite rows_with_app, Hz. simpl.
    unfold rows_with. rewrite !filter_cons, filter_nil.
    repeat case_decide; try (exfalso; auto; fail). reflexivity. }
  exists w2. split.
  { unfold run_upserts. cbn [for_each]. unfold run_upsert, bind, ret.
    cbn [upsert_key_file_path upsert_table_id upsert_record].
    rewrite Hrun1, Hu, Hrun2. reflexivity. }
  split.
  { unfold store_ok. rewrite Htab2. apply tables_ok_insert; [exact Hok|].
    destruct (tables w !! (p, d, t)) as [rows|] eqn:E; simpl.
    - exact (Hok _ _ E).
    - apply NoDup_nil_2. }
  split; [exact Hpend2|]. split; [exact Hrows|].
  intros Hbad.
  rewrite Hset2, lookup_insert_eq in Hrows. simpl in Hrows.
  apply (two_rows_not_one_per_locator _ _ _ _ _ Hrows).
  apply (Hbad (p, d, t)). rewrite Hset2. apply lookup_insert_eq.
Qed.

Lemma run_upserts_one_row_per_locator_witness :
  let C := Demo.collaborators [] in
  let r1 := mkAudioRecord "L2" "b.mp3" 1000 PyFloat.minus_19_9 HighEnergy in
  let r2 := mkAudioRecord "L2" "b.mp3" 70000 PyFloat.minus_20 LowEnergy in
  let us := [mkUpsert key_file_path table_id r1;
             mkUpsert key_file_path table_id r2] in
  store_ok (fst (run_upserts_settled us Demo.empty_world))
  /\ exists w',
       run_upserts us Demo.empty_world = (w', inr tt)
       /\ ~ store_ok (settle w').
Proof.
  intros C r1 r2 us.
  assert (store_ok Demo.empty_world) as Hok.
  { intros ref rows Hlook. cbn in Hlook.
    rewrite lookup_empty in Hlook. discriminate Hlook. }
  destruct (run_upserts_one_row_per_locator (C := C) us Demo.empty_world
              eq_refl Hok) as [[Hsettled _] Hnot].
  split; [exact Hsettled|].
  destruct (Hnot key_file_path table_id project_id "audio_files"
              "audio_metadata" r1 r2 eq_refl eq_refl eq_refl eq_refl eq_refl)
    as (w' & Hrun & _ & _ & _ & Hbad).
  exists w'. split; [exact Hrun|exact Hbad].
Defined.

(* ===================================================================== *)
(** * Properties of the driver loop *)
(* ===================================================================== *)

Section Driver.
Context {C : Collaborators}.

Lemma call_upload_arity (local_file_path file_name : string) (w : World) :
  call_upload_to_gcp_storage (upload_args local_file_path file_name) w =
    (w, inl upload_TypeError).
Proof. reflexivity. Qed.

Lemma call_insert_arity (url file_name : string) (dur : Z) (l : spec_float)
    (cls : string) (w : World) :
  call_insert_into_bigquery (insert_args url file_name dur l cls) w =
    (w, inl insert_TypeError).
Proof. reflexivity. Qed.

(** One turn of the driver's loop. *)
Lemma process_item_run (each_link : string) (w : World) :
  process_item each_link w =
    match requests_get each_link with
    | Some response =>
        if can_open (local_path_of each_link) then
          (set_files (insert (local_path_of each_link) (content response)) w,
           inl upload_TypeError)
        else (w, inl (OSError (local_path_of each_link)))
    | None => (w, inl (RequestException each_link))
    end.
Proof.
  unfold process_item, loop_body, http_get, write_file, local_path_of, bind.
  destruct (requests_get each_link) as [response|]; [|reflexivity].
  cbv [ret]. destruct (can_open _); reflexivity.
Qed.

Lemma process_item_raises (each_link : string) (w : World) :
  exists e, snd (process_item each_link w) = inl e.
Proof.
  rewrite process_item_run.
  destruct (requests_get each_link); [destruct (can_open _)|];
    eexists; reflexivity.
Qed.

Lemma process_item_stores (each_link : string) (w : World) :
  objects (fst (process_item each_link w)) = objects w /\
  tables (fst (process_item each_link w)) = tables w.
Proof.
  rewrite process_item_run.
  destruct (requests_get each_link); [destruct (can_open _)|];
    split; reflexivity.
Qed.

Lemma process_item_pending (each_link : string) (w : World) :
  pending (fst (process_item each_link w)) = pending w.
Proof.
  rewrite process_item_run.
  destruct (requests_get each_link); [destruct (can_open _)|]; reflexivity.
Qed.

(** A loop stops at the first turn that raises. *)
Lemma for_each_raise {A} (body : A -> M unit) (x : A) (xs : list A)
    (w w' : World) (e : exn) :
  body x w = (w', inl e) -> for_each (x :: xs) body w = (w', inl e).
Proof. intros H. cbn [for_each]. unfold bind. rewrite H. reflexivity. Qed.

Lemma for_each_app {A} (body : A -> M unit) (xs ys : list A) (w w1 : World) :
  for_each xs body w = (w1, inr tt) ->
  for_each (xs ++ ys) body w = for_each ys body w1.
Proof.
  revert w. induction xs as [|x xs IH]; intros w H.
  - injection H as ->. reflexivity.
  - cbn [for_each app] in *. unfold bind in *.
    destruct (body x w) as [w' [e|[]]]; [discriminate H|].
    apply IH, H.
Qed.

Lemma for_each_process_item (item : string) (rest : list string) (w : World) :
  for_each (item :: rest) process_item w = process_item item w.
Proof.
  destruct (process_item_raises item w) as [e He].
  destruct (process_item item w) as [w' r] eqn:Hrun. simpl in He. subst r.
  apply for_each_raise, Hrun.
Qed.

(** ** What the two calls leave alone *)

Lemma upload_to_gcp_storage_files (k b l r : string) (w : World) :
  files (fst (upload_to_gcp_storage k b l r w)) = files w.
Proof.
  cbv [upload_to_gcp_storage environ_set client_of_environ read_file bind ret
       raise get_world modify].
  simpl. destruct (client_loads _); [|reflexivity].
  simpl. destruct (files w !! l); reflexivity.
Qed.

Lemma insert_into_bigquery_files (k t u f : string) (d : Z) (l : spec_float)
    (c : string) (w : World) :
  files (fst (insert_into_bigquery k t u f d l c w)) = files w.
Proof.
  destruct (client_loads k) eqn:Hload.
  2:{ rewrite (insert_into_bigquery_no_client _ _ _ _ _ _ _ _ Hload).
      reflexivity. }
  assert (forall ds tb, files (ensured k ds tb w) = files w) as Hens.
  { intros ds tb. unfold ensured. destruct (tables w !! _); reflexivity. }
  destruct (PyStr.split "." t) as [|p [|ds [|tb [|x rest]]]] eqn:Hsplit.
  4: { rewrite (insert_into_bigquery_run _ _ _ _ _ _ _ _ _ _ _ Hload Hsplit).
       cbv zeta. destruct (tables (ensured k ds tb w) !! _); simpl;
         apply Hens. }
  all: cbv [insert_into_bigquery environ_set client_of_environ index
            try_except get_table create_table query_count rows_of resolve
            resolve_ref bind ret raise get_world modify];
       simpl; rewrite lookup_insert_eq; simpl; rewrite Hload, Hsplit; simpl;
       try reflexivity.
  destruct (tables w !! _); reflexivity.
Qed.

Lemma call_files {A} (callee : string) (params : list string)
    (body : list value -> M A) (args : list value) (w : World) :
  (forall args' w', files (fst (body args' w')) = files w') ->
  files (fst (call callee params body args w)) = files w.
Proof.
  intros Hbody. unfold call.
  destruct (_ <? _)%nat; [reflexivity|].
  destruct (_ <? _)%nat; [reflexivity|]. apply Hbody.
Qed.

Lemma call_upload_files (args : list value) (w : World) :
  files (fst (call_upload_to_gcp_storage args w)) = files w.
Proof.
  apply call_files. clear. intros args w.
  repeat (match goal with
          | |- context [match ?x with _ => _ end] => destruct x
          end; try reflexivity).
  apply upload_to_gcp_storage_files.
Qed.

Lemma call_insert_files (args : list value) (w : World) :
  files (fst (call_insert_into_bigquery args w)) = files w.
Proof.
  apply call_files. clear. intros args w.
  repeat (match goal with
          | |- context [match ?x with _ => _ end] => destruct x
          end; try reflexivity).
  apply insert_into_bigquery_files.
Qed.

Lemma get_audio_metadata_world (path : string) (w : World) :
  fst (get_audio_metadata path w) = w.
Proof.
  cbv [get_audio_metadata read_file bind ret raise get_world].
  destruct (files w !! path) as [data|]; [|reflexivity].
  destruct (from_file path data); reflexivity.
Qed.

(** The temporary file after one turn of the loop, over callees that do
    not touch local files. *)
Lemma loop_body_temp_file (upload insert : list value -> M string)
    (each_link : string) (response : Response) (w : World) :
  (forall args w', files (fst (upload args w')) = files w') ->
  (forall args w', files (fst (insert args w')) = files w') ->
  requests_get each_link = Some response ->
  can_open (local_path_of each_link) = true ->
  match loop_body upload insert each_link w with
  | (w', inr _) => files w' !! local_path_of each_link = None
  | (w', inl _) =>
      files w' !! local_path_of each_link = Some (content response)
  end.
Proof.
  intros Hup Hins Hget Hopen.
  unfold loop_body, http_get, bind. rewrite Hget.
  cbv [ret write_file]. unfold local_path_of in *.
  set (path := "temporary_" +:+ PyStr.basename each_link) in *.
  rewrite Hopen. cbv [modify].
  set (w1 := set_files _ w).
  assert (files w1 !! path = Some (content response))
    as Hw1 by apply lookup_insert_eq.
  pose proof (Hup (upload_args path (PyStr.basename each_link)) w1) as Hf2.
  destruct (upload _ w1) as [w2 [e|url]]; simpl in Hf2;
    [rewrite Hf2; exact Hw1|].
  pose proof (get_audio_metadata_world path w2) as Hf3.
  destruct (get_audio_metadata _ w2) as [w3 [e|meta]]; simpl in Hf3; subst w3;
    [rewrite Hf2; exact Hw1|].
  match goal with
  | |- context [insert ?args w2] => pose proof (Hins args w2) as Hf4
  end.
  destruct (insert _ w2) as [w4 [e|msg]]; simpl in Hf4;
    [rewrite Hf4, Hf2; exact Hw1|].
  cbv [os_remove bind get_world modify ret].
  rewrite Hf4, Hf2. change (files w1) with (<[path:=content response]> (files w)).
  rewrite lookup_insert_eq. simpl. rewrite Hf4. apply lookup_delete_eq.
Qed.

(** An item that cannot be downloaded, or whose file cannot be opened,
    ends there and leaves the world as it was. *)
Lemma loop_body_no_download (upload insert : list value -> M string)
    (each_link : string) (w : World) :
  requests_get each_link = None ->
  loop_body upload insert each_link w = (w, inl (RequestException each_link)).
Proof.
  intros Hget. unfold loop_body, http_get, bind. rewrite Hget. reflexivity.
Qed.

Lemma loop_body_no_open (upload insert : list value -> M string)
    (each_link : string) (response : Response) (w : World) :
  requests_get each_link = Some response ->
  can_open (local_path_of each_link) = false ->
  loop_body upload insert each_link w =
    (w, inl (OSError (local_path_of each_link))).
Proof.
  intros Hget Hopen.
  unfold loop_body, http_get, write_file, bind. rewrite Hget. cbv [ret].
  unfold local_path_of in Hopen. rewrite Hopen. reflexivity.
Qed.

End Driver.

(** C9, as the program has it. The upload call of the loop passes three
    positional arguments to a function of four parameters and the insert
    call passes five to a function of seven, so each of the two calls
    raises a TypeError and leaves the world as it was. Processing of an
    item ends at the first step that raises: when the download raises,
    with the exception of the download and the world as it was; when the
    download returns and the temporary file cannot be opened, with the
    OSError of [open] and the world as it was; when the download returns
    and the file opens, with the temporary file written and the TypeError
    of the upload call. In every case no object is stored, no record is
    persisted and no job is started, and a run over a non-empty discovery
    result ends with the exception of its first item, both stores
    untouched. *)
Theorem process_item_raises_TypeError_at_upload
    {C : Collaborators} (each_link : string) (w : World) :
  (forall l f, length (upload_args l f) = 3%nat)
  /\ length upload_to_gcp_storage_params = 4%nat
  /\ (forall u f d lo c, length (insert_args u f d lo c) = 5%nat)
  /\ length insert_into_bigquery_params = 7%nat
  /\ (forall l f w',
        call_upload_to_gcp_storage (upload_args l f) w' =
          (w', inl upload_TypeError))
  /\ (forall u f d lo c w',
        call_insert_into_bigquery (insert_args u f d lo c) w' =
          (w', inl insert_TypeError))
  /\ (requests_get each_link = None ->
      process_item each_link w = (w, inl (RequestException each_link)))
  /\ (forall response,
        requests_get each_link = Some response ->
        can_open (local_path_of each_link) = false ->
        process_item each_link w =
          (w, inl (OSError (local_path_of each_link))))
  /\ (forall response,
        requests_get each_link = Some response ->
        can_open (local_path_of each_link) = true ->
        process_item each_link w =
          (set_files (insert (local_path_of each_link) (content response)) w,
           inl upload_TypeError))
  /\ is_TypeError upload_TypeError = true
  /\ (objects (fst (process_item each_link w)) = objects w /\
      tables (fst (process_item each_link w)) = tables w /\
      pending (fst (process_item each_link w)) = pending w)
  /\ (forall rest,
        for_each (each_link :: rest) process_item w =
          process_item each_link w)
  /\ (forall links w', links <> [] ->
        (exists e, snd (for_each links process_item w') = inl e) /\
        objects (fst (for_each links process_item w')) = objects w' /\
        tables (fst (for_each links process_item w')) = tables w').
Proof.
  split; [reflexivity|]. split; [reflexivity|].
  split; [reflexivity|]. split; [reflexivity|].
  split; [intros; apply call_upload_arity|].
  split; [intros; apply call_insert_arity|].
  split; [intros Hget; rewrite process_item_run, Hget; reflexivity|].
  split; [intros response Hget Hopen;
          rewrite process_item_run, Hget, Hopen; reflexivity|].
  split; [intros response Hget Hopen;
          rewrite process_item_run, Hget, Hopen; reflexivity|].
  split; [reflexivity|].
  split.
  { split; [apply process_item_stores|].
    split; [apply process_item_stores|apply process_item_pending]. }
  split; [intros rest; apply for_each_process_item|].
  intros [|item rest] w' Hne; [congruence|].
  rewrite for_each_process_item.
  split; [apply process_item_raises|apply process_item_stores].
Qed.

Lemma process_item_raises_TypeError_at_upload_witness :
  (let C := Demo.collaborators Demo.two_links in
   process_item "http://h/a.mp3" Demo.empty_world =
     (set_files (insert "temporary_a.mp3" "aaaa") Demo.empty_world,
      inl upload_TypeError))
  /\ (let C := Demo.collaborators Demo.long_link in
      process_item ("http://h/" +:+ Demo.long_name) Demo.empty_world =
        (Demo.empty_world, inl (OSError ("temporary_" +:+ Demo.long_name))))
  /\ (let C := Demo.collaborators Demo.relative_link in
      process_item "a.mp3" Demo.empty_world =
        (Demo.empty_world, inl (RequestException "a.mp3"))).
Proof.
  split; [|split]; intros C.
  - assert (can_open (local_path_of "http://h/a.mp3") = true) as Hopen
      by (vm_compute; reflexivity).
    exact (proj1 (proj2 (proj2 (proj2 (proj2 (proj2 (proj2 (proj2 (proj2
      (process_item_raises_TypeError_at_upload (C := C) "http://h/a.mp3"
         Demo.empty_world)))))))))
      (Demo.page 200 "aaaa") eq_refl Hopen).
  - assert (requests_get ("http://h/" +:+ Demo.long_name) =
              Some (Demo.page 200 "aaaa")) as Hget
      by (vm_compute; reflexivity).
    assert (local_path_of ("http://h/" +:+ Demo.long_name) =
              "temporary_" +:+ Demo.long_name) as Hpath
      by (vm_compute; reflexivity).
    assert (can_open (local_path_of ("http://h/" +:+ Demo.long_name)) = false)
      as Hopen by (vm_compute; reflexivity).
    rewrite <- Hpath.
    exact (proj1 (proj2 (proj2 (proj2 (proj2 (proj2 (proj2 (proj2
      (process_item_raises_TypeError_at_upload (C := C)
         ("http://h/" +:+ Demo.long_name) Demo.empty_world))))))))
      (Demo.page 200 "aaaa") Hget Hopen).
  - assert (requests_get "a.mp3" = None) as Hget by (vm_compute; reflexivity).
    exact (proj1 (proj2 (proj2 (proj2 (proj2 (proj2 (proj2
      (process_item_raises_TypeError_at_upload (C := C) "a.mp3"
         Demo.empty_world)))))))
      Hget).
Defined.

(** C9, as it is stated, fails for an item whose download raises: the
    page lists the relative link [a.mp3], [requests.get] raises on it, and
    processing of the item ends with that exception, before the upload
    step and without a TypeError. It fails as well for an item whose
    temporary file cannot be opened: the file name of the link has 254
    characters, and processing ends with the OSError of [open]. *)
Lemma process_item_TypeError_counterexample :
  (let C := Demo.collaborators Demo.relative_link in
   find_audio_links url_to_scrape Demo.empty_world =
     (Demo.empty_world, inr ["a.mp3"])
   /\ process_item "a.mp3" Demo.empty_world =
        (Demo.empty_world, inl (RequestException "a.mp3"))
   /\ main Demo.empty_world =
        (Demo.empty_world, inl (RequestException "a.mp3"))
   /\ is_TypeError (RequestException "a.mp3") = false)
  /\ (let C := Demo.collaborators Demo.long_link in
      process_item ("http://h/" +:+ Demo.long_name) Demo.empty_world =
        (Demo.empty_world, inl (OSError ("temporary_" +:+ Demo.long_name)))
      /\ is_TypeError (OSError ("temporary_" +:+ Demo.long_name)) = false)
  /\ ~ (forall (C : Collaborators) (each_link : string) (w : World),
          exists w' e, process_item each_link w = (w', inl e) /\
                       is_TypeError e = true).
Proof.
  split; [|split].
  - repeat split; vm_compute; reflexivity.
  - repeat split; vm_compute; reflexivity.
  - intros H.
    destruct (H (Demo.collaborators Demo.relative_link) "a.mp3"
                Demo.empty_world) as (w' & e & Hrun & Hty).
    vm_compute in Hrun. injection Hrun as _ <-. discriminate Hty.
Qed.

(** C4, as the program has it. No failure of an item is isolated: the
    loop has no handler, so when a turn of the loop raises, at whatever
    step of the body, the loop ends there with that exception and with the
    world as the failing turn left it, and the resources after it are not
    processed. *)
Theorem loop_ends_at_first_failure
    {C : Collaborators} (upload insert : list value -> M string)
    (before : list string) (item : string) (rest : list string)
    (w w1 w2 : World) (e : exn) :
  for_each before (loop_body upload insert) w = (w1, inr tt) ->
  loop_body upload insert item w1 = (w2, inl e) ->
  for_each (before ++ item :: rest) (loop_body upload insert) w = (w2, inl e)
  /\ for_each (before ++ item :: rest) (loop_body upload insert) w
     = for_each (before ++ [item]) (loop_body upload insert) w.
Proof.
  intros Hbefore Hitem.
  rewrite !(for_each_app _ _ _ _ _ Hbefore).
  rewrite !(for_each_raise _ _ _ _ _ _ Hitem). split; reflexivity.
Qed.

Lemma loop_ends_at_first_failure_witness :
  let C := Demo.collaborators Demo.two_links in
  for_each ["http://h/a.mp3"; "http://h/b.mp3"] process_item Demo.empty_world
    = (set_files (insert "temporary_a.mp3" "aaaa") Demo.empty_world,
       inl upload_TypeError).
Proof.
  intros C.
  exact (proj1 (loop_ends_at_first_failure (C := C)
                  call_upload_to_gcp_storage call_insert_into_bigquery
                  [] "http://h/a.mp3" ["http://h/b.mp3"]
                  Demo.empty_world Demo.empty_world
                  (set_files (insert "temporary_a.mp3" "aaaa") Demo.empty_world)
                  upload_TypeError eq_refl eq_refl)).
Defined.

(** C4, as it is stated, fails: of the two links the page lists, the
    first fails at the upload step and the run ends there; the second is
    never fetched, whereas a loop that isolated the failure would have
    fetched it. *)
Lemma failure_aborts_batch_counterexample :
  (let C := Demo.collaborators Demo.two_links in
   find_audio_links url_to_scrape Demo.empty_world =
     (Demo.empty_world, inr ["http://h/a.mp3"; "http://h/b.mp3"])
   /\ snd (main Demo.empty_world) = inl upload_TypeError
   /\ files (fst (main Demo.empty_world)) !! "temporary_a.mp3" = Some "aaaa"
   /\ files (fst (main Demo.empty_world)) !! "temporary_b.mp3" = None
   /\ files (fst (for_each_isolated ["http://h/a.mp3"; "http://h/b.mp3"]
                    process_item Demo.empty_world)) !! "temporary_b.mp3"
      = Some "bbbb")
  /\ ~ (forall (C : Collaborators) (links : list string) (w : World),
          fst (for_each links process_item w) =
          fst (for_each_isolated links process_item w)).
Proof.
  split.
  - repeat split; vm_compute; reflexivity.
  - intros H.
    specialize (H (Demo.collaborators Demo.two_links)
                  ["http://h/a.mp3"; "http://h/b.mp3"] Demo.empty_world).
    apply (f_equal (fun w => files w !! "temporary_b.mp3")) in H.
    vm_compute in H. discriminate H.
Qed.

(** C5, as the program has it. The temporary file is removed by the last
    statement of the loop body and nowhere else. Over callees that leave
    local files alone: an item whose download raises ends with that
    exception and the world as it was; an item whose download returned
    and whose temporary file cannot be opened ends with the OSError of
    [open], and no file is written; for an item whose file was opened and
    written, the file no longer exists when every step of the turn
    returned, and it is still there, with the downloaded bytes, when a
    step after the download raised. *)
Theorem temp_file_removed_only_on_success
    {C : Collaborators} (upload insert : list value -> M string)
    (each_link : string) (w : World) :
  (forall args w', files (fst (upload args w')) = files w') ->
  (forall args w', files (fst (insert args w')) = files w') ->
  (requests_get each_link = None ->
     loop_body upload insert each_link w =
       (w, inl (RequestException each_link)))
  /\ (forall response,
        requests_get each_link = Some response ->
        can_open (local_path_of each_link) = false ->
        loop_body upload insert each_link w =
          (w, inl (OSError (local_path_of each_link))))
  /\ (forall response,
        requests_get each_link = Some response ->
        can_open (local_path_of each_link) = true ->
        (snd (loop_body upload insert each_link w) = inr tt ->
           files (fst (loop_body upload insert each_link w))
             !! local_path_of each_link = None)
        /\ (forall e, snd (loop_body upload insert each_link w) = inl e ->
           files (fst (loop_body upload insert each_link w))
             !! local_path_of each_link = Some (content response))).
Proof.
  intros Hup Hins.
  split; [apply loop_body_no_download|].
  split; [intros response; apply loop_body_no_open|].
  intros response Hget Hopen.
  pose proof (loop_body_temp_file upload insert each_link response w
                Hup Hins Hget Hopen) as H.
  destruct (loop_body upload insert each_link w) as [w' [e|[]]]; simpl.
  - split; [discriminate|]. intros _ _. exact H.
  - split; [intros _; exact H|discriminate].
Qed.

Lemma temp_file_removed_only_on_success_witness :
  let C := Demo.collaborators Demo.two_links in
  (snd (loop_body Demo.upload_with_key Demo.insert_with_key_and_table
          "http://h/a.mp3" Demo.empty_world) = inr tt
   /\ files (fst (loop_body Demo.upload_with_key Demo.insert_with_key_and_table
                    "http://h/a.mp3" Demo.empty_world))
        !! "temporary_a.mp3" = None)
  /\ (snd (process_item "http://h/a.mp3" Demo.empty_world)
        = inl upload_TypeError
      /\ files (fst (process_item "http://h/a.mp3" Demo.empty_world))
           !! "temporary_a.mp3" = Some "aaaa")
  /\ (let C := Demo.collaborators Demo.undecodable in
      snd (loop_body Demo.upload_with_key Demo.insert_with_key_and_table
             "http://h/e.mp3" Demo.empty_world)
        = inl (CouldntDecodeError "temporary_e.mp3")
      /\ files (fst (loop_body Demo.upload_with_key
                       Demo.insert_with_key_and_table
                       "http://h/e.mp3" Demo.empty_world))
           !! "temporary_e.mp3" = Some "")
  /\ (let C := Demo.collaborators Demo.long_link in
      loop_body Demo.upload_with_key Demo.insert_with_key_and_table
        ("http://h/" +:+ Demo.long_name) Demo.empty_world =
        (Demo.empty_world,
         inl (OSError (local_path_of ("http://h/" +:+ Demo.long_name))))).
Proof.
  intros C. split; [|split; [|split]].
  - assert (snd (loop_body Demo.upload_with_key Demo.insert_with_key_and_table
                   "http://h/a.mp3" Demo.empty_world) = inr tt) as Hok
      by (vm_compute; reflexivity).
    assert (can_open (local_path_of "http://h/a.mp3") = true) as Hopen
      by (vm_compute; reflexivity).
    split; [exact Hok|].
    exact (proj1 (proj2 (proj2 (temp_file_removed_only_on_success (C := C)
                    Demo.upload_with_key Demo.insert_with_key_and_table
                    "http://h/a.mp3" Demo.empty_world
                    (fun args w' => call_upload_files _ w')
                    (fun args w' => call_insert_files _ w')))
                    (Demo.page 200 "aaaa") eq_refl Hopen) Hok).
  - assert (snd (process_item "http://h/a.mp3" Demo.empty_world)
              = inl upload_TypeError) as Hfail by (vm_compute; reflexivity).
    assert (can_open (local_path_of "http://h/a.mp3") = true) as Hopen
      by (vm_compute; reflexivity).
    split; [exact Hfail|].
    exact (proj2 (proj2 (proj2 (temp_file_removed_only_on_success (C := C)
                    call_upload_to_gcp_storage call_insert_into_bigquery
                    "http://h/a.mp3" Demo.empty_world
                    call_upload_files call_insert_files))
                    (Demo.page 200 "aaaa") eq_refl Hopen)
                 upload_TypeError Hfail).
  - intros C'.
    assert (snd (loop_body Demo.upload_with_key Demo.insert_with_key_and_table
                   "http://h/e.mp3" Demo.empty_world)
              = inl (CouldntDecodeError "temporary_e.mp3")) as Hfail
      by (vm_compute; reflexivity).
    assert (can_open (local_path_of "http://h/e.mp3") = true) as Hopen
      by (vm_compute; reflexivity).
    split; [exact Hfail|].
    exact (proj2 (proj2 (proj2 (temp_file_removed_only_on_success (C := C')
                    Demo.upload_with_key Demo.insert_with_key_and_table
                    "http://h/e.mp3" Demo.empty_world
                    (fun args w' => call_upload_files _ w')
                    (fun args w' => call_insert_files _ w')))
                    (Demo.page 200 "") eq_refl Hopen)
                 (CouldntDecodeError "temporary_e.mp3") Hfail).
  - intros C'.
    assert (requests_get ("http://h/" +:+ Demo.long_name) =
              Some (Demo.page 200 "aaaa")) as Hget
      by (vm_compute; reflexivity).
    assert (can_open (local_path_of ("http://h/" +:+ Demo.long_name)) = false)
      as Hopen by (vm_compute; reflexivity).
    exact (proj1 (proj2 (temp_file_removed_only_on_success (C := C')
                    Demo.upload_with_key Demo.insert_with_key_and_table
                    ("http://h/" +:+ Demo.long_name) Demo.empty_world
                    (fun args w' => call_upload_files _ w')
                    (fun args w' => call_insert_files _ w')))
                 (Demo.page 200 "aaaa") Hget Hopen).
Defined.

(** C5, as it is stated, fails: the item is downloaded, fails at the
    upload step, and its temporary file is still there when the turn, and
    with it the run, is over. *)
Lemma temp_file_left_counterexample :
  (let C := Demo.collaborators Demo.two_links in
   process_item "http://h/a.mp3" Demo.empty_world =
     (set_files (insert "temporary_a.mp3" "aaaa") Demo.empty_world,
      inl upload_TypeError)
   /\ files (fst (process_item "http://h/a.mp3" Demo.empty_world))
        !! local_path_of "http://h/a.mp3" = Some "aaaa"
   /\ files (fst (main Demo.empty_world)) !! "temporary_a.mp3" = Some "aaaa")
  /\ ~ (forall (C : Collaborators) (each_link : string) (w : World),
          files (fst (process_item each_link w))
            !! local_path_of each_link = None).
Proof.
  split.
  - repeat split; vm_compute; reflexivity.
  - intros H.
    specialize (H (Demo.collaborators Demo.two_links) "http://h/a.mp3"
                  Demo.empty_world).
    vm_compute in H. discriminate H.
Qed.

(* ===================================================================== *)
(** * Further properties: splitting, base names, link discovery *)
(* ===================================================================== *)

(** X1. Splitting on a character loses nothing: joining the parts with
    that character gives the string back, there is one part more than the
    character occurs, and no part contains it. *)
Theorem split_join (sep : ascii) (s : string) :
  String.concat (String sep "") (PyStr.split sep s) = s
  /\ length (PyStr.split sep s) = S (occurrences sep s)
  /\ Forall (fun part => occurrences sep part = 0%nat) (PyStr.split sep s).
Proof.
  unfold PyStr.split. split; [|split].
  - rewrite split_go_join. reflexivity.
  - apply split_go_length.
  - apply split_go_parts. reflexivity.
Qed.

(** X2. The base name of a path holds no slash, and it is the path itself
    when the path holds none, and what follows a slash of the path
    otherwise: the part after the last slash. *)
Theorem basename_after_last_slash (p : string) :
  occurrences "/" (PyStr.basename p) = 0%nat
  /\ ((occurrences "/" p = 0%nat /\ PyStr.basename p = p)
      \/ exists dir, p = dir +:+ "/" +:+ PyStr.basename p).
Proof.
  unfold PyStr.basename. split.
  - apply basename_go_no_slash. reflexivity.
  - destruct (basename_go_spec "" p) as [[Hno Hb]|Hd]; [left|right; exact Hd].
    split; [exact Hno|exact Hb].
Qed.

Lemma existsb_ext_endswith (s1 s2 : string) :
  (forall ext, In ext audio_extensions ->
     PyStr.endswith s1 ext = PyStr.endswith s2 ext) ->
  existsb (PyStr.endswith s1) audio_extensions =
  existsb (PyStr.endswith s2) audio_extensions.
Proof.
  intros H. induction audio_extensions as [|ext exts IH]; [reflexivity|].
  simpl. rewrite (H ext) by (left; reflexivity).
  rewrite IH; [reflexivity|]. intros e He. apply H. right. exact He.
Qed.

Lemma audio_extension_length (ext : string) :
  In ext audio_extensions -> (4 <= String.length ext <= 5)%nat.
Proof.
  unfold audio_extensions. simpl.
  intros [<-|[<-|[<-|[<-|[<-|[]]]]]]; simpl; lia.
Qed.

(** X3. Whether a link is kept is decided by its last five characters,
    whatever their case: a link of five characters or more is kept exactly
    when what remains after dropping any text in front of them is kept, a
    link and its lower-cased form are kept alike, and no link of fewer
    than four characters is kept. *)
Theorem is_audio_link_by_suffix (front s : string) :
  (5 <= String.length s)%nat ->
  is_audio_link (front +:+ s) = is_audio_link s
  /\ is_audio_link (PyStr.lower s) = is_audio_link s
  /\ (forall h, (String.length h < 4)%nat -> is_audio_link h = false).
Proof.
  intros Hlen. split; [|split].
  - unfold is_audio_link. apply existsb_ext_endswith. intros ext Hext.
    rewrite lower_append. apply endswith_append.
    rewrite length_lower. pose proof (audio_extension_length ext Hext). lia.
  - unfold is_audio_link. rewrite lower_idempotent. reflexivity.
  - intros h Hh. destruct (is_audio_link h) eqn:E; [|reflexivity].
    unfold is_audio_link in E. apply existsb_exists in E as (ext & Hext & He).
    apply endswith_length in He. rewrite length_lower in He.
    pose proof (audio_extension_length ext Hext). lia.
Qed.

Lemma is_audio_link_by_suffix_witness :
  is_audio_link ("https://host/dir/" +:+ "a.MP3") = is_audio_link "a.MP3"
  /\ is_audio_link "a.MP3" = true.
Proof.
  split; [|reflexivity].
  exact (proj1 (is_audio_link_by_suffix "https://host/dir/" "a.MP3"
                  ltac:(simpl; lia))).
Defined.

(** X4. Discovery depends only on which links the page has, not on their
    order or on how often each occurs: two lists of links with the same
    members give the same links, each once. The order of the two results
    is the interpreter's, and need not be the same. *)
Theorem unique_audio_links_same_members
    {C : Collaborators} (links1 links2 : list string) :
  (forall href, href ∈ links1 <-> href ∈ links2) ->
  unique_audio_links links1 ≡ₚ unique_audio_links links2.
Proof.
  intros Hsame.
  apply NoDup_Permutation; try apply unique_audio_links_NoDup.
  intros href. rewrite !elem_of_unique_audio_links, Hsame. reflexivity.
Qed.

Lemma unique_audio_links_same_members_witness :
  let C := Demo.collaborators [] in
  unique_audio_links ["b.wav"; "a.mp3"; "b.wav"; "c.txt"] ≡ₚ
  unique_audio_links ["c.txt"; "a.mp3"; "b.wav"].
Proof.
  intros C. apply unique_audio_links_same_members.
  intros href. rewrite !elem_of_cons. rewrite !elem_of_nil. tauto.
Defined.

(** X5. The result of discovery is a fixed point of discovery, up to the
    order of the list: every link of it is an audio link of the page, it
    is no longer than the list of links of the page, and running the
    selection on it again returns the same links, each once. *)
Theorem unique_audio_links_idempotent
    {C : Collaborators} (all_links : list string) :
  unique_audio_links (unique_audio_links all_links) ≡ₚ
    unique_audio_links all_links
  /\ (length (unique_audio_links all_links) <= length all_links)%nat
  /\ Forall (fun href => href ∈ all_links /\ is_audio_link href = true)
            (unique_audio_links all_links).
Proof.
  split; [|split].
  - apply NoDup_Permutation; try apply unique_audio_links_NoDup.
    intros href. rewrite !elem_of_unique_audio_links. tauto.
  - apply submseteq_length, NoDup_submseteq;
      [apply unique_audio_links_NoDup|].
    intros href [Hin _]%elem_of_unique_audio_links. exact Hin.
  - apply Forall_forall. intros href Hin.
    apply elem_of_unique_audio_links, Hin.
Qed.

(** X6. When the page request itself raises, discovery does not catch it:
    the exception leaves [find_audio_links] with nothing printed and the
    world as it was, and the run ends with it before any item is
    processed. *)
Theorem find_audio_links_request_raises
    {C : Collaborators} (url : string) (w : World) :
  requests_get url = None ->
  find_audio_links url w = (w, inl (RequestException url))
  /\ (url = url_to_scrape -> main w = (w, inl (RequestException url))).
Proof.
  intros Hget.
  assert (find_audio_links url w = (w, inl (RequestException url))) as E.
  { unfold find_audio_links, http_get, bind. rewrite Hget. reflexivity. }
  split; [exact E|]. intros ->. unfold main, bind. rewrite E. reflexivity.
Qed.

Lemma find_audio_links_request_raises_witness :
  let C := Demo.collaborators [] in
  main Demo.empty_world =
    (Demo.empty_world, inl (RequestException url_to_scrape)).
Proof.
  intros C.
  exact (proj2 (find_audio_links_request_raises (C := C) url_to_scrape
                  Demo.empty_world eq_refl) eq_refl).
Defined.

(* ===================================================================== *)
(** * Further properties: upload, metadata, classifier *)
(* ===================================================================== *)

Section UploadAndMetadata.
Context {C : Collaborators}.

Lemma upload_to_gcp_storage_run (k b l r : string) (w : World) :
  upload_to_gcp_storage k b l r w =
    let w1 := set_environ (insert GOOGLE_APPLICATION_CREDENTIALS k) w in
    if client_loads k then
      match files w !! l with
      | Some data =>
          (set_objects (insert (b, r) data) w1, inr (public_url b r))
      | None => (w1, inl (FileNotFoundError l))
      end
    else (w1, inl DefaultCredentialsError).
Proof.
  cbv [upload_to_gcp_storage environ_set client_of_environ read_file bind ret
       raise get_world modify].
  simpl. rewrite lookup_insert_eq. simpl.
  destruct (client_loads k); [|reflexivity].
  simpl. destruct (files w !! l); reflexivity.
Qed.

End UploadAndMetadata.

(** X7. An upload of an existing local file, with a key file from which a
    client can be built, returns the public URL of the object and stores
    the bytes of the file under the bucket and the remote name; every
    other object, the local files, the tables, the pending jobs and the
    output stay as they were, and the credentials variable of the
    environment now holds the key file path. With a key file from which
    no client can be built the upload raises at the construction of the
    client, the variable set and nothing stored. *)
Theorem upload_to_gcp_storage_stores_file
    {C : Collaborators} (k b l r data : string) (w : World) :
  files w !! l = Some data ->
  (client_loads k = true ->
   exists w',
     upload_to_gcp_storage k b l r w = (w', inr (public_url b r))
     /\ objects w' !! (b, r) = Some data
     /\ (forall key, key <> (b, r) -> objects w' !! key = objects w !! key)
     /\ files w' = files w /\ tables w' = tables w /\ stdout w' = stdout w
     /\ environ w' = <[GOOGLE_APPLICATION_CREDENTIALS := k]> (environ w)
     /\ pending w' = pending w)
  /\ (client_loads k = false ->
      upload_to_gcp_storage k b l r w =
        (set_environ (insert GOOGLE_APPLICATION_CREDENTIALS k) w,
         inl DefaultCredentialsError)).
Proof.
  intros Hfile. rewrite upload_to_gcp_storage_run, Hfile. cbv zeta.
  split; intros ->; [|reflexivity].
  eexists. split; [reflexivity|]. simpl.
  split; [apply lookup_insert_eq|].
  split; [intros key Hne; apply lookup_insert_ne; congruence|].
  repeat split.
Qed.

Lemma upload_to_gcp_storage_stores_file_witness :
  let C := Demo.collaborators [] in
  exists w',
    upload_to_gcp_storage key_file_path bucket_name "temporary_a.mp3" "a.mp3"
        (set_files (insert "temporary_a.mp3" "aaaa") Demo.empty_world)
      = (w', inr "https://storage.googleapis.com/adegoju_bucket/a.mp3")
    /\ objects w' !! (bucket_name, "a.mp3") = Some "aaaa".
Proof.
  intros C.
  assert (files (set_files (insert "temporary_a.mp3" "aaaa") Demo.empty_world)
            !! "temporary_a.mp3" = Some "aaaa") as Hfile
    by (vm_compute; reflexivity).
  destruct (proj1 (upload_to_gcp_storage_stores_file (C := C) key_file_path
              bucket_name "temporary_a.mp3" "a.mp3" "aaaa"
              (set_files (insert "temporary_a.mp3" "aaaa") Demo.empty_world)
              Hfile) eq_refl) as (w' & Hrun & Hobj & _).
  exists w'. split; [exact Hrun|exact Hobj].
Defined.

(** X8. An upload of a local file that does not exist stores nothing and
    raises; it has already set the credentials variable of the
    environment, and that change stays. The client is built before the
    file is read: with a key file from which no client can be built the
    exception is the one of the client's construction, and otherwise it
    is FileNotFoundError. *)
Theorem upload_to_gcp_storage_missing_file
    {C : Collaborators} (k b l r : string) (w : World) :
  files w !! l = None ->
  upload_to_gcp_storage k b l r w =
    (set_environ (insert GOOGLE_APPLICATION_CREDENTIALS k) w,
     inl (if client_loads k then FileNotFoundError l
          else DefaultCredentialsError))
  /\ objects (fst (upload_to_gcp_storage k b l r w)) = objects w
  /\ environ (fst (upload_to_gcp_storage k b l r w))
       !! GOOGLE_APPLICATION_CREDENTIALS = Some k.
Proof.
  intros Hfile. rewrite upload_to_gcp_storage_run, Hfile. cbv zeta.
  destruct (client_loads k);
    (split; [reflexivity|]); (split; [reflexivity|]); simpl;
    apply lookup_insert_eq.
Qed.

Lemma upload_to_gcp_storage_missing_file_witness :
  let C := Demo.collaborators [] in
  snd (upload_to_gcp_storage key_file_path bucket_name "temporary_a.mp3"
         "a.mp3" Demo.empty_world)
    = inl (FileNotFoundError "temporary_a.mp3")
  /\ snd (upload_to_gcp_storage "no-such-key.json" bucket_name
            "temporary_a.mp3" "a.mp3" Demo.empty_world)
    = inl DefaultCredentialsError.
Proof.
  intros C.
  assert (files Demo.empty_world !! "temporary_a.mp3" = None) as Hfile
    by (vm_compute; reflexivity).
  split.
  - exact (f_equal snd
             (proj1 (upload_to_gcp_storage_missing_file (C := C) key_file_path
                       bucket_name "temporary_a.mp3" "a.mp3" Demo.empty_world
                       Hfile))).
  - exact (f_equal snd
             (proj1 (upload_to_gcp_storage_missing_file (C := C)
                       "no-such-key.json" bucket_name "temporary_a.mp3"
                       "a.mp3" Demo.empty_world Hfile))).
Defined.

(** X9. Uploads overwrite by name: after two uploads under the same
    bucket and remote name the world is the one the second upload alone
    would have left; when a client can be built from the key file, the
    object holds the bytes of the second file. *)
Theorem upload_to_gcp_storage_overwrites
    {C : Collaborators} (k b l1 l2 r data1 data2 : string) (w : World) :
  files w !! l1 = Some data1 ->
  files w !! l2 = Some data2 ->
  fst ((upload_to_gcp_storage k b l1 r ;; upload_to_gcp_storage k b l2 r) w)
    = fst (upload_to_gcp_storage k b l2 r w)
  /\ (client_loads k = true ->
      objects (fst ((upload_to_gcp_storage k b l1 r ;;
                     upload_to_gcp_storage k b l2 r) w)) !! (b, r)
      = Some data2).
Proof.
  intros H1 H2. unfold bind.
  rewrite (upload_to_gcp_storage_run k b l1 r w), H1. cbv zeta.
  destruct (client_loads k) eqn:Hload.
  - rewrite !upload_to_gcp_storage_run, Hload. simpl. rewrite H2.
    unfold set_objects, set_environ. simpl.
    rewrite !insert_insert_eq.
    split; [reflexivity|intros _; apply lookup_insert_eq].
  - rewrite !upload_to_gcp_storage_run, Hload. simpl.
    split; [reflexivity|discriminate].
Qed.

Lemma upload_to_gcp_storage_overwrites_witness :
  let C := Demo.collaborators [] in
  let w := set_files (insert "one" "1111")
             (set_files (insert "two" "22") Demo.empty_world) in
  objects (fst ((upload_to_gcp_storage key_file_path bucket_name "one" "a.mp3" ;;
                 upload_to_gcp_storage key_file_path bucket_name "two" "a.mp3")
                w)) !! (bucket_name, "a.mp3") = Some "22".
Proof.
  intros C w.
  assert (files w !! "one" = Some "1111") as H1 by (vm_compute; reflexivity).
  assert (files w !! "two" = Some "22") as H2 by (vm_compute; reflexivity).
  exact (proj2 (upload_to_gcp_storage_overwrites (C := C) key_file_path
                  bucket_name "one" "two" "a.mp3" "1111" "22" w H1 H2)
               eq_refl).
Defined.

(** X10. Reading the metadata never changes the world. It returns exactly
    when the file exists and the decoder accepts its bytes, and then it
    returns the length and the loudness of the decoded segment; a missing
    file raises FileNotFoundError and a rejected one CouldntDecodeError. *)
Theorem get_audio_metadata_reads_only
    {C : Collaborators} (path : string) (w : World) :
  fst (get_audio_metadata path w) = w
  /\ (forall d l,
        snd (get_audio_metadata path w) = inr (d, l) <->
        exists data audio,
          files w !! path = Some data /\
          from_file path data = Some audio /\
          d = len audio /\ l = dBFS audio)
  /\ (files w !! path = None ->
        snd (get_audio_metadata path w) = inl (FileNotFoundError path))
  /\ (forall data, files w !! path = Some data ->
        from_file path data = None ->
        snd (get_audio_metadata path w) = inl (CouldntDecodeError path)).
Proof.
  split; [apply get_audio_metadata_world|].
  cbv [get_audio_metadata read_file bind ret raise get_world].
  destruct (files w !! path) as [data|] eqn:Hfile; simpl.
  - destruct (from_file path data) as [audio|] eqn:Hdec; simpl.
    + split; [|split; [discriminate|]].
      * intros d l. split.
        -- intros [= <- <-]. exists data, audio. repeat split. exact Hdec.
        -- intros (data' & audio' & [= <-] & Hd & -> & ->).
           rewrite Hdec in Hd. injection Hd as <-. reflexivity.
      * intros data' [= <-] Hd. congruence.
    + split; [|split; [discriminate|]].
      * intros d l. split; [discriminate|].
        intros (data' & audio' & [= <-] & Hd & _). congruence.
      * intros data' _ _. reflexivity.
  - split; [|split; [reflexivity|discriminate]].
    intros d l. split; [discriminate|].
    intros (data' & audio' & Hf & _). discriminate Hf.
Qed.

(** ** The classifier on floats other than NaN *)

Lemma gt_is_not_le_minus_20 (l : spec_float) :
  l <> S754_nan ->
  PyFloat.gt l PyFloat.minus_20 = negb (PyFloat.le l PyFloat.minus_20).
Proof.
  intros Hnan. destruct l as [s|s| |[] m e]; try congruence.
  - destruct s; reflexivity.
  - destruct s; reflexivity.
  - rewrite gt_finite_neg, le_finite_neg.
    destruct (Z.ltb_spec e (-48)), (Z.ltb_spec (-48) e),
      (Z.eqb_spec e (-48)), (Z.ltb_spec (Zpos m) 5629499534213120),
      (Z.leb_spec 5629499534213120 (Zpos m)); simpl; try reflexivity; lia.
  - reflexivity.
Qed.

(** X11. For a loudness that is not NaN exactly one of [l > -20] and
    [l <= -20] holds, so the fall-through label has a positive reading:
    the result is MediumEnergy exactly for a short file that is quiet
    ([duration < 60000] and [l <= -20]) or a long file that is loud
    ([duration >= 60000] and [l > -20]). *)
Theorem classify_audio_medium_not_nan (d : Z) (l : spec_float) :
  l <> S754_nan ->
  PyFloat.gt l PyFloat.minus_20 = negb (PyFloat.le l PyFloat.minus_20)
  /\ (classify_audio d l = MediumEnergy <->
        (d < 60000 /\ PyFloat.le l PyFloat.minus_20 = true) \/
        (60000 <= d /\ PyFloat.gt l PyFloat.minus_20 = true)).
Proof.
  intros Hnan. pose proof (gt_is_not_le_minus_20 l Hnan) as Hgl.
  split; [exact Hgl|].
  unfold classify_audio. rewrite Hgl.
  destruct (Z.ltb_spec d 60000), (Z.geb_spec d 60000); try lia;
    destruct (PyFloat.le l PyFloat.minus_20); simpl; split;
    intros; try discriminate; try reflexivity;
    intuition (discriminate || lia).
Qed.

Lemma classify_audio_medium_not_nan_witness :
  classify_audio 30000 PyFloat.neg_infinity = MediumEnergy.
Proof.
  apply (proj2 (classify_audio_medium_not_nan 30000 PyFloat.neg_infinity
                  ltac:(discriminate))).
  left. split; [lia|reflexivity].
Defined.

(* ===================================================================== *)
(** * Further properties: the upsert *)
(* ===================================================================== *)

Section UpsertCases.
Context {C : Collaborators}.

(** The whole function, by whether a client can be built and by the
    number of parts of the table identifier. *)
Lemma insert_into_bigquery_cases key tid url fn dur l c (w : World) :
  insert_into_bigquery key tid url fn dur l c w =
    if client_loads key then
      match PyStr.split "." tid with
      | [p; d; t] =>
          match tables (ensured key d t w) !! (p, d, t) with
          | Some rows =>
              (set_pending
                 (fun jobs =>
                    jobs ++
                    [upsert_job tid (mkAudioRecord url fn dur l c) rows])
                 (ensured key d t w),
               inr (confirmation url c))
          | None => (ensured key d t w, inl (NotFound tid))
          end
      | _ :: d :: t :: _ :: _ => (ensured key d t w, inl (BadRequest tid))
      | _ =>
          (set_environ (insert GOOGLE_APPLICATION_CREDENTIALS key) w,
           inl IndexError)
      end
    else
      (set_environ (insert GOOGLE_APPLICATION_CREDENTIALS key) w,
       inl DefaultCredentialsError).
Proof.
  destruct (client_loads key) eqn:Hload;
    [|apply insert_into_bigquery_no_client, Hload].
  destruct (PyStr.split "." tid) as [|p [|d [|t [|x rest]]]] eqn:Hsplit.
  4: { apply (insert_into_bigquery_run _ _ _ _ _ _ _ _ _ _ _ Hload Hsplit). }
  all: cbv [insert_into_bigquery environ_set client_of_environ index
            try_except get_table create_table query_count rows_of resolve
            resolve_ref bind ret raise get_world modify];
       simpl; rewrite lookup_insert_eq; simpl; rewrite Hload, Hsplit; simpl;
       try reflexivity.
  unfold ensured.
  destruct (tables w !! _); reflexivity.
Qed.

Lemma ensured_pending key d t (w : World) :
  pending (ensured key d t w) = pending w.
Proof. unfold ensured. destruct (tables w !! _); reflexivity. Qed.

Lemma ensured_environ key d t (w : World) :
  environ (ensured key d t w) =
    <[GOOGLE_APPLICATION_CREDENTIALS := key]> (environ w).
Proof. unfold ensured. destruct (tables w !! _); reflexivity. Qed.

Lemma ensured_tables key d t (w : World) :
  tables (ensured key d t w) =
    match tables w !! (client_project key, d, t) with
    | Some _ => tables w
    | None => <[(client_project key, d, t) := []]> (tables w)
    end.
Proof. unfold ensured. destruct (tables w !! _); reflexivity. Qed.

Lemma ensured_keeps key d t (w : World) ref rows :
  tables w !! ref = Some rows -> tables (ensured key d t w) !! ref = Some rows.
Proof.
  intros H. rewrite ensured_tables.
  destruct (tables w !! (client_project key, d, t)) eqn:E; [exact H|].
  rewrite lookup_insert_ne; [exact H|]. intros <-. congruence.
Qed.

(** Nothing is left to make sure of once the table exists and the
    variable is set. *)
Lemma ensured_again key d t (w : World) rows :
  tables w !! (client_project key, d, t) = Some rows ->
  environ w !! GOOGLE_APPLICATION_CREDENTIALS = Some key ->
  ensured key d t w = w.
Proof.
  intros Ht He. unfold ensured. rewrite Ht.
  destruct w as [env fs objs tabs pend out]. unfold set_environ. simpl in *.
  f_equal. apply insert_id, He.
Qed.

End UpsertCases.

Lemma world_eq (w w' : World) :
  environ w = environ w' -> files w = files w' -> objects w = objects w' ->
  tables w = tables w' -> pending w = pending w' -> stdout w = stdout w' ->
  w = w'.
Proof.
  destruct w, w'. simpl. intros -> -> -> -> -> ->. reflexivity.
Qed.

Section UpsertRows.

Lemma update_row_other new row :
  matches (gcp_url new) row = false -> update_row new row = row.
Proof. unfold update_row. intros ->. reflexivity. Qed.

Lemma update_row_idempotent new row :
  update_row new (update_row new row) = update_row new row.
Proof.
  unfold update_row at 1. rewrite matches_update_row.
  unfold update_row. destruct (matches (gcp_url new) row); reflexivity.
Qed.

Lemma update_row_self row : update_row row row = row.
Proof.
  unfold update_row, matches. rewrite String.eqb_refl.
  destruct row; reflexivity.
Qed.

Lemma map_update_row_absent new rows :
  count_rows (gcp_url new) rows = 0 -> map (update_row new) rows = rows.
Proof.
  intros Hz. apply count_rows_zero_filter in Hz.
  induction rows as [|r rows IH]; [reflexivity|].
  simpl in Hz. destruct (matches (gcp_url new) r) eqn:E; [discriminate Hz|].
  simpl. rewrite (update_row_other _ _ E), (IH Hz). reflexivity.
Qed.

Lemma upsert_rows_idempotent row rows :
  upsert_rows row (upsert_rows row rows) = upsert_rows row rows.
Proof.
  unfold upsert_rows at 2.
  destruct (Z.eqb_spec (count_rows (gcp_url row) rows) 0) as [Hz|Hnz].
  - unfold upsert_rows.
    rewrite count_rows_app, Hz, count_rows_singleton.
    unfold matches at 1. rewrite String.eqb_refl. simpl.
    rewrite map_app, (map_update_row_absent _ _ Hz). simpl.
    rewrite update_row_self. reflexivity.
  - unfold upsert_rows. rewrite count_rows_map_update_row.
    destruct (Z.eqb_spec (count_rows (gcp_url row) rows) 0); [tauto|].
    rewrite map_map. apply map_ext. intros r. apply update_row_idempotent.
Qed.

Lemma upsert_rows_count row rows url :
  count_rows url (upsert_rows row rows) =
    if String.eqb url (gcp_url row)
    then Z.max 1 (count_rows url rows)
    else count_rows url rows.
Proof.
  pose proof (count_rows_nonneg url rows) as Hnn. unfold upsert_rows.
  destruct (Z.eqb_spec (count_rows (gcp_url row) rows) 0) as [Hz|Hnz].
  - rewrite count_rows_app, count_rows_singleton. unfold matches.
    rewrite (String.eqb_sym (gcp_url row) url).
    destruct (String.eqb_spec url (gcp_url row)) as [->|_]; lia.
  - rewrite count_rows_map_update_row.
    destruct (String.eqb_spec url (gcp_url row)) as [->|_]; lia.
Qed.

Lemma filter_other_update_row url new rows :
  gcp_url new = url ->
  List.filter (other_locator url) (map (update_row new) rows) =
  List.filter (other_locator url) rows.
Proof.
  intros <-. induction rows as [|r rows IH]; [reflexivity|].
  cbn [map List.filter]. rewrite IH.
  unfold other_locator. rewrite matches_update_row.
  destruct (matches (gcp_url new) r) eqn:E; simpl; [reflexivity|].
  rewrite (update_row_other _ _ E). reflexivity.
Qed.

Lemma upsert_rows_keeps_others row rows :
  List.filter (other_locator (gcp_url row)) (upsert_rows row rows) =
    List.filter (other_locator (gcp_url row)) rows
  /\ (length rows <= length (upsert_rows row rows))%nat.
Proof.
  unfold upsert_rows. destruct (_ =? 0).
  - rewrite List.filter_app, length_app. simpl.
    unfold other_locator at 2, matches. rewrite String.eqb_refl. simpl.
    rewrite app_nil_r. split; [reflexivity|lia].
  - rewrite filter_other_update_row by reflexivity.
    rewrite length_map. split; [reflexivity|lia].
Qed.

End UpsertRows.

(** X12. The client is built before the table identifier is split. With
    a key file from which a client can be built, a table identifier with
    fewer than two dots makes the call raise IndexError, and only such an
    identifier does; with a key file from which none can be built, the
    call raises at the construction of the client, whatever the
    identifier. Either error comes before the store is reached, so no
    table is read, created or written and no job is started, while the
    credentials variable of the environment is already set. *)
Theorem insert_into_bigquery_IndexError
    {C : Collaborators} key tid url fn dur l c (w : World) :
  (snd (insert_into_bigquery key tid url fn dur l c w) = inl IndexError <->
   client_loads key = true /\ (occurrences "." tid < 2)%nat)
  /\ (snd (insert_into_bigquery key tid url fn dur l c w)
        = inl DefaultCredentialsError <->
      client_loads key = false)
  /\ (client_loads key = false \/ (occurrences "." tid < 2)%nat ->
      fst (insert_into_bigquery key tid url fn dur l c w) =
        set_environ (insert GOOGLE_APPLICATION_CREDENTIALS key) w).
Proof.
  rewrite insert_into_bigquery_cases.
  destruct (client_loads key).
  2:{ simpl. split; [split; [discriminate|intros [? _]; discriminate]|].
      split; [split; reflexivity|reflexivity]. }
  pose proof (split_go_length "." "" tid) as Hlen.
  fold (PyStr.split "." tid) in Hlen.
  destruct (PyStr.split "." tid) as [|p [|d [|t [|x rest]]]];
    simpl in Hlen.
  - lia.
  - split; [split; [intros _; split; [reflexivity|lia]|reflexivity]|].
    split; [split; discriminate|reflexivity].
  - split; [split; [intros _; split; [reflexivity|lia]|reflexivity]|].
    split; [split; discriminate|reflexivity].
  - destruct (tables (ensured key d t w) !! (p, d, t)); simpl;
      (split; [split; [discriminate|intros [_ ?]; lia]|]);
      (split; [split; discriminate|intros [?|?]; [discriminate|lia]]).
  - simpl. split; [split; [discriminate|intros [_ ?]; lia]|].
    split; [split; discriminate|intros [?|?]; [discriminate|lia]].
Qed.

(** X13. A call never deletes a table or a row, and it leaves the rows of
    other locators alone: a table that existed before still exists after
    the call, whatever the arguments and whether or not the call raises,
    with at least as many rows, and its rows that do not carry the
    record's locator are the same, in the same order. The same holds once
    the store has carried out the job of the call. *)
Theorem insert_into_bigquery_keeps_rows
    {C : Collaborators} key tid url fn dur l c (w : World) ref rows :
  tables w !! ref = Some rows ->
  (exists rows',
     tables (fst (insert_into_bigquery key tid url fn dur l c w)) !! ref
       = Some rows'
     /\ List.filter (other_locator url) rows' =
        List.filter (other_locator url) rows
     /\ (length rows <= length rows')%nat)
  /\ (pending w = [] ->
      exists rows',
        tables (settle (fst (insert_into_bigquery key tid url fn dur l c w)))
          !! ref = Some rows'
        /\ List.filter (other_locator url) rows' =
           List.filter (other_locator url) rows
        /\ (length rows <= length rows')%nat).
Proof.
  intros Hrows.
  destruct (insert_into_bigquery_effect key tid url fn dur l c w)
    as (w' & res & -> & Htab & Hres). cbn [fst].
  assert (tables w' !! ref = Some rows) as Hrows'.
  { destruct Htab as [->|(ref0 & Hnone & ->)]; [exact Hrows|].
    rewrite lookup_insert_ne; [exact Hrows|]. intros <-. congruence. }
  split; [exists rows; split; [exact Hrows'|split; [reflexivity|lia]]|].
  intros Hpend. rewrite tables_settle.
  destruct res as [e|msg].
  - rewrite Hres, Hpend, apply_jobs_nil.
    exists rows. split; [exact Hrows'|split; [reflexivity|lia]].
  - destruct Hres as (_ & ref1 & rows1 & Href & Hrows1 & ->).
    rewrite Hpend, app_nil_l, apply_jobs_cons, apply_jobs_nil.
    rewrite (apply_job_upsert_job _ _ _ _ _ Href Hrows1).
    destruct (decide (ref = ref1)) as [<-|Hne].
    + rewrite Hrows' in Hrows1. injection Hrows1 as <-.
      exists (upsert_rows (mkAudioRecord url fn dur l c) rows).
      split; [apply lookup_insert_eq|].
      apply (upsert_rows_keeps_others (mkAudioRecord url fn dur l c) rows).
    + exists rows. rewrite lookup_insert_ne by congruence.
      split; [exact Hrows'|split; [reflexivity|lia]].
Qed.

Lemma insert_into_bigquery_keeps_rows_witness :
  let C := Demo.collaborators [] in
  let other := mkAudioRecord "L0" "z.wav" 5 PyFloat.nan MediumEnergy in
  let w := set_tables
             (insert (project_id, "audio_files", "audio_metadata") [other])
             Demo.empty_world in
  exists rows',
    tables (settle (fst (insert_into_bigquery key_file_path table_id "L1"
                           "a.mp3" 1000 PyFloat.minus_19_9 HighEnergy w)))
      !! (project_id, "audio_files", "audio_metadata") = Some rows'
    /\ List.filter (other_locator "L1") rows' = [other].
Proof.
  intros C other w.
  assert (tables w !! (project_id, "audio_files", "audio_metadata")
            = Some [other]) as Hrows by (vm_compute; reflexivity).
  destruct (proj2 (insert_into_bigquery_keeps_rows (C := C) key_file_path
              table_id "L1" "a.mp3" 1000 PyFloat.minus_19_9 HighEnergy w _ _
              Hrows) eq_refl)
    as (rows' & Hlook & Hfilter & _).
  exists rows'. split; [exact Hlook|exact Hfilter].
Defined.

(** X14. An upsert whose job has been carried out is idempotent: for a
    table identifier [p.d.t] in the project of the credentials and a
    store with no job pending, a second call with the same arguments,
    made once the store has carried out the job of the first, returns
    the same confirmation, and once its own job is carried out the world
    is exactly as it was after the first. *)
Theorem insert_into_bigquery_idempotent
    {C : Collaborators} key tid p d t url fn dur l c (w : World) :
  PyStr.split "." tid = [p; d; t] ->
  client_loads key = true ->
  client_project key = p ->
  pending w = [] ->
  exists w1 w2,
    insert_into_bigquery key tid url fn dur l c w
      = (w1, inr (confirmation url c))
    /\ insert_into_bigquery key tid url fn dur l c (settle w1)
      = (w2, inr (confirmation url c))
    /\ settle w2 = settle w1.
Proof.
  intros Hsplit Hload Hproj Hpend.
  pose proof (resolve_ref_split _ _ _ _ Hsplit) as Href.
  set (row := mkAudioRecord url fn dur l c).
  destruct (insert_into_bigquery_call key tid p d t url fn dur l c w
              Hsplit Hload Hproj)
    as (w1 & Hrun1 & Htab1 & Hpend1 & Henv1 & Hfiles1 & Hobj1 & Hout1).
  fold row in Hpend1. rewrite Hpend, app_nil_l in Hpend1.
  set (rows := default [] (tables w !! (p, d, t))) in *.
  assert (tables (settle w1) = <[(p, d, t) := upsert_rows row rows]> (tables w))
    as Hset1.
  { rewrite tables_settle, Hpend1, Htab1, apply_jobs_cons, apply_jobs_nil.
    rewrite (apply_job_upsert_job tid (p, d, t) row rows) by
      (try exact Href; apply lookup_insert_eq).
    apply insert_insert_eq. }
  destruct (insert_into_bigquery_call key tid p d t url fn dur l c (settle w1)
              Hsplit Hload Hproj)
    as (w2 & Hrun2 & Htab2 & Hpend2 & Henv2 & Hfiles2 & Hobj2 & Hout2).
  fold row in Hpend2. rewrite pending_settle, app_nil_l in Hpend2.
  rewrite Hset1, lookup_insert_eq in Htab2, Hpend2.
  cbn [default] in Htab2, Hpend2. rewrite insert_insert_eq in Htab2.
  exists w1, w2. split; [exact Hrun1|]. split; [exact Hrun2|].
  apply world_eq.
  - change (environ (settle w2)) with (environ w2).
    change (environ (settle w1)) with (environ w1).
    rewrite Henv2. change (environ (settle w1)) with (environ w1).
    rewrite Henv1. apply insert_insert_eq.
  - change (files w2 = files w1). rewrite Hfiles2. reflexivity.
  - change (objects w2 = objects w1). rewrite Hobj2. reflexivity.
  - rewrite (tables_settle w2), Hpend2, Htab2, apply_jobs_cons, apply_jobs_nil.
    rewrite (apply_job_upsert_job tid (p, d, t) row (upsert_rows row rows)) by
      (try exact Href; apply lookup_insert_eq).
    rewrite insert_insert_eq, upsert_rows_idempotent, Hset1. reflexivity.
  - rewrite !pending_settle. reflexivity.
  - change (stdout w2 = stdout w1). rewrite Hout2. reflexivity.
Qed.

Lemma insert_into_bigquery_idempotent_witness :
  let C := Demo.collaborators [] in
  exists w1 w2,
    insert_into_bigquery key_file_path table_id "L2" "b.mp3" 1000
        PyFloat.minus_19_9 HighEnergy Demo.empty_world
      = (w1, inr (confirmation "L2" HighEnergy))
    /\ insert_into_bigquery key_file_path table_id "L2" "b.mp3" 1000
        PyFloat.minus_19_9 HighEnergy (settle w1)
      = (w2, inr (confirmation "L2" HighEnergy))
    /\ settle w2 = settle w1.
Proof.
  intros C.
  exact (insert_into_bigquery_idempotent (C := C) key_file_path table_id
           project_id "audio_files" "audio_metadata" "L2" "b.mp3" 1000
           PyFloat.minus_19_9 HighEnergy Demo.empty_world
           eq_refl eq_refl eq_refl eq_refl).
Defined.

(** X15. An upsert does not merge rows that already share a locator: for
    a table identifier [p.d.t] in the project of the credentials and a
    store with no job pending, once the store has carried out the job of
    the call the number of rows with the record's locator is the number
    before, or one when there was none, and the number of rows of every
    other locator is unchanged. *)
Theorem insert_into_bigquery_row_counts
    {C : Collaborators} key tid p d t url fn dur l c (w : World) :
  PyStr.split "." tid = [p; d; t] ->
  client_loads key = true ->
  client_project key = p ->
  pending w = [] ->
  forall u,
    length (rows_with u
      (default []
         (tables (settle (fst (insert_into_bigquery key tid url fn dur l c w)))
            !! (p, d, t))))
    = if decide (u = url)
      then Nat.max 1 (length (rows_with u (default [] (tables w !! (p, d, t)))))
      else length (rows_with u (default [] (tables w !! (p, d, t)))).
Proof.
  intros Hsplit Hload Hproj Hpend u.
  pose proof (resolve_ref_split _ _ _ _ Hsplit) as Href.
  destruct (insert_into_bigquery_call key tid p d t url fn dur l c w
              Hsplit Hload Hproj)
    as (w1 & -> & Htab1 & Hpend1 & _).
  cbn [fst]. rewrite Hpend, app_nil_l in Hpend1.
  set (rows := default [] (tables w !! (p, d, t))) in *.
  rewrite tables_settle, Hpend1, Htab1, apply_jobs_cons, apply_jobs_nil.
  rewrite (apply_job_upsert_job tid (p, d, t) _ rows) by
    (try exact Href; apply lookup_insert_eq).
  rewrite lookup_insert_eq. cbn [default from_option]. unfold id.
  pose proof (upsert_rows_count (mkAudioRecord url fn dur l c) rows u) as H.
  rewrite !count_rows_rows_with in H. simpl gcp_url in H.
  destruct (String.eqb_spec u url); case_decide; try contradiction; lia.
Qed.

Lemma insert_into_bigquery_row_counts_witness :
  let C := Demo.collaborators [] in
  let dup := mkAudioRecord "L1" "old.mp3" 5 PyFloat.nan MediumEnergy in
  let w := set_tables
             (insert (project_id, "audio_files", "audio_metadata") [dup; dup])
             Demo.empty_world in
  length (rows_with "L1"
    (default []
       (tables (settle (fst (insert_into_bigquery key_file_path table_id
                               "L1" "a.mp3" 1000 PyFloat.minus_19_9
                               HighEnergy w)))
          !! (project_id, "audio_files", "audio_metadata"))))
  = 2%nat.
Proof.
  intros C dup w.
  rewrite (insert_into_bigquery_row_counts (C := C) key_file_path table_id
             project_id "audio_files" "audio_metadata" "L1" "a.mp3" 1000
             PyFloat.minus_19_9 HighEnergy w eq_refl eq_refl eq_refl eq_refl
             "L1").
  vm_compute. reflexivity.
Defined.

(** X16. The existence check ignores the project named in the table
    identifier: it looks for, and creates, the table of that dataset and
    name in the project of the credentials. When that project is another
    one and the table the identifier names does not exist, the call, with
    a key file from which a client can be built, makes sure the client's
    table exists, writes no row, starts no job, and raises NotFound;
    with a key file from which none can be built it raises at the
    construction of the client and the tables are as they were. *)
Theorem insert_into_bigquery_other_project
    {C : Collaborators} key tid p d t url fn dur l c (w : World) :
  PyStr.split "." tid = [p; d; t] ->
  client_project key <> p ->
  tables w !! (p, d, t) = None ->
  snd (insert_into_bigquery key tid url fn dur l c w)
    = inl (if client_loads key then NotFound tid
           else DefaultCredentialsError)
  /\ (client_loads key = true ->
      tables (fst (insert_into_bigquery key tid url fn dur l c w))
      = match tables w !! (client_project key, d, t) with
        | Some _ => tables w
        | None => <[(client_project key, d, t) := []]> (tables w)
        end
      /\ is_Some (tables (fst (insert_into_bigquery key tid url fn dur l c w))
                    !! (client_project key, d, t)))
  /\ (client_loads key = false ->
      tables (fst (insert_into_bigquery key tid url fn dur l c w)) = tables w)
  /\ pending (fst (insert_into_bigquery key tid url fn dur l c w))
     = pending w.
Proof.
  intros Hsplit Hproj Hnone.
  rewrite insert_into_bigquery_cases, Hsplit.
  destruct (client_loads key).
  2:{ simpl. split; [reflexivity|]. split; [discriminate|].
      split; reflexivity. }
  assert (tables (ensured key d t w) !! (p, d, t) = None) as ->.
  { rewrite ensured_tables. destruct (tables w !! (client_project key, d, t));
      [exact Hnone|].
    rewrite lookup_insert_ne by congruence. exact Hnone. }
  simpl. split; [reflexivity|].
  split; [|split; [discriminate|apply ensured_pending]].
  intros _. split; [apply ensured_tables|].
  rewrite ensured_tables.
  destruct (tables w !! (client_project key, d, t)) eqn:E.
  - rewrite E. eexists. reflexivity.
  - rewrite lookup_insert_eq. eexists. reflexivity.
Qed.

Lemma insert_into_bigquery_other_project_witness :
  let C := Demo.collaborators [] in
  snd (insert_into_bigquery key_file_path "other.audio_files.audio_metadata"
         "L1" "a.mp3" 1000 PyFloat.minus_19_9 HighEnergy Demo.empty_world)
    = inl (NotFound "other.audio_files.audio_metadata").
Proof.
  intros C.
  assert (tables Demo.empty_world !! ("other", "audio_files", "audio_metadata")
            = None) as Hnone by (vm_compute; reflexivity).
  exact (proj1 (insert_into_bigquery_other_project (C := C) key_file_path
                  "other.audio_files.audio_metadata" "other" "audio_files"
                  "audio_metadata" "L1" "a.mp3" 1000 PyFloat.minus_19_9
                  HighEnergy Demo.empty_world eq_refl
                  ltac:(discriminate) Hnone)).
Defined.

(** X17. Both store functions overwrite the credentials variable of the
    process environment before anything else, and never restore it:
    after a call, whether it returned or raised, the variable holds the
    key file path of that call and every other variable is as before. *)
Theorem credentials_variable_set
    {C : Collaborators} key b lf r tid url fn dur l c (w : World) :
  environ (fst (upload_to_gcp_storage key b lf r w)) =
    <[GOOGLE_APPLICATION_CREDENTIALS := key]> (environ w)
  /\ environ (fst (insert_into_bigquery key tid url fn dur l c w)) =
    <[GOOGLE_APPLICATION_CREDENTIALS := key]> (environ w).
Proof.
  split.
  - rewrite upload_to_gcp_storage_run. cbv zeta.
    destruct (client_loads key); [|reflexivity].
    destruct (files w !! lf); reflexivity.
  - rewrite insert_into_bigquery_cases.
    destruct (client_loads key); [|reflexivity].
    destruct (PyStr.split "." tid) as [|p [|d [|t [|x rest]]]]; simpl;
      try reflexivity; try apply ensured_environ.
    destruct (tables (ensured key d t w) !! (p, d, t)); simpl;
      apply ensured_environ.
Qed.

(** X21. A call starts at most one write job and does not wait for it. A
    call that raises starts none. A call that returns has returned its
    confirmation with exactly one job added after the pending ones, for
    the table the identifier names: the insert of the record when no row
    of that table carried the record's locator as the call counted them,
    the update otherwise. *)
Theorem insert_into_bigquery_starts_one_job
    {C : Collaborators} key tid url fn dur l c (w : World) :
  let row := mkAudioRecord url fn dur l c in
  let result := insert_into_bigquery key tid url fn dur l c w in
  (forall e, snd result = inl e -> pending (fst result) = pending w)
  /\ (forall msg, snd result = inr msg ->
        msg = confirmation url c /\
        exists ref rows,
          resolve_ref tid = Some ref /\
          tables (fst result) !! ref = Some rows /\
          pending (fst result) =
            pending w ++
            [if decide (rows_with url rows = []) then InsertJob tid row
             else UpdateJob tid row]).
Proof.
  intros row result. subst result.
  destruct (insert_into_bigquery_effect key tid url fn dur l c w)
    as (w' & res & -> & _ & Hres). cbn [fst snd].
  split.
  - intros e ->. exact Hres.
  - intros msg ->. destruct Hres as (Hmsg & ref & rows & Href & Hrows & Hp).
    split; [exact Hmsg|]. exists ref, rows.
    split; [exact Href|]. split; [exact Hrows|]. rewrite Hp. fold row.
    case_decide as Hz.
    + rewrite (upsert_job_absent tid row rows Hz). reflexivity.
    + rewrite (upsert_job_present tid row rows Hz). reflexivity.
Qed.

(* ===================================================================== *)
(** * Further properties: the run *)
(* ===================================================================== *)

Section Run.
Context {C : Collaborators}.

(** Discovery touches nothing but the output. *)
Lemma find_audio_links_frame (url : string) (w : World) :
  let w' := fst (find_audio_links url w) in
  environ w' = environ w /\ files w' = files w /\ objects w' = objects w
  /\ tables w' = tables w.
Proof.
  unfold find_audio_links, http_get, bind.
  destruct (requests_get url) as [response|]; simpl; [|repeat split].
  destruct (status_code response =? 200); simpl; repeat split.
Qed.

Lemma local_path_of_no_slash (each_link : string) :
  occurrences "/" (local_path_of each_link) = 0%nat.
Proof.
  unfold local_path_of, PyStr.basename.
  rewrite occurrences_append, basename_go_no_slash by reflexivity.
  reflexivity.
Qed.

Lemma process_item_files (each_link : string) (w : World) :
  forall path, path <> local_path_of each_link ->
    files (fst (process_item each_link w)) !! path = files w !! path.
Proof.
  intros path Hne. rewrite process_item_run.
  destruct (requests_get each_link); simpl; [|reflexivity].
  destruct (can_open _); simpl; [|reflexivity].
  apply lookup_insert_ne. congruence.
Qed.

Lemma process_item_keeps_files (each_link : string) (w : World) :
  forall path, is_Some (files w !! path) ->
    is_Some (files (fst (process_item each_link w)) !! path).
Proof.
  intros path Hsome. rewrite process_item_run.
  destruct (requests_get each_link); simpl; [|exact Hsome].
  destruct (can_open _); simpl; [|exact Hsome].
  rewrite lookup_insert. case_decide; [eexists; reflexivity|exact Hsome].
Qed.

End Run.

(** X18. A run returns normally only when there is nothing to do: [main]
    ends without an exception exactly when discovery returned the empty
    list, and then the world is the one discovery left. *)
Theorem main_returns_only_without_links {C : Collaborators} (w : World) :
  (snd (main w) = inr tt <->
   exists w', find_audio_links url_to_scrape w = (w', inr []))
  /\ (forall w', find_audio_links url_to_scrape w = (w', inr []) ->
        main w = (w', inr tt)).
Proof.
  unfold main, bind.
  destruct (find_audio_links url_to_scrape w) as [w1 [e|links]].
  - split; [split; [discriminate|intros [w' H]; discriminate H]|].
    intros w' H. discriminate H.
  - destruct links as [|item rest].
    + split; [split; [intros _; exists w1; reflexivity|reflexivity]|].
      intros w' [= <-]. reflexivity.
    + rewrite for_each_process_item.
      destruct (process_item_raises item w1) as [e He].
      split; [split; [rewrite He; discriminate|]|].
      * intros [w' H]. discriminate H.
      * intros w' H. discriminate H.
Qed.

(** X19. Processing an item touches one local file only, in the working
    directory: the path it writes is [temporary_] followed by the base
    name of the link and holds no slash, every other local file is as
    before, and neither the environment nor the output changes. *)
Theorem process_item_writes_only_temp_file
    {C : Collaborators} (each_link : string) (w : World) :
  local_path_of each_link = "temporary_" +:+ PyStr.basename each_link
  /\ occurrences "/" (local_path_of each_link) = 0%nat
  /\ (forall path, path <> local_path_of each_link ->
        files (fst (process_item each_link w)) !! path = files w !! path)
  /\ environ (fst (process_item each_link w)) = environ w
  /\ stdout (fst (process_item each_link w)) = stdout w.
Proof.
  split; [reflexivity|]. split; [apply local_path_of_no_slash|].
  split; [apply process_item_files|].
  rewrite process_item_run.
  destruct (requests_get each_link); [destruct (can_open _)|]; split;
    reflexivity.
Qed.

(** X20. A whole run creates or overwrites at most one local file and
    removes none, prints at most one line, and changes neither the
    environment nor the object store nor the table store. *)
Theorem main_footprint {C : Collaborators} (w : World) :
  (exists changed, forall path, path <> changed ->
     files (fst (main w)) !! path = files w !! path)
  /\ (forall path, is_Some (files w !! path) ->
        is_Some (files (fst (main w)) !! path))
  /\ (exists printed, stdout (fst (main w)) = stdout w ++ printed /\
                      (length printed <= 1)%nat)
  /\ environ (fst (main w)) = environ w
  /\ objects (fst (main w)) = objects w
  /\ tables (fst (main w)) = tables w.
Proof.
  assert (exists printed,
            stdout (fst (find_audio_links url_to_scrape w))
              = stdout w ++ printed /\ (length printed <= 1)%nat) as Hout.
  { unfold find_audio_links, http_get, bind.
    destruct (requests_get url_to_scrape) as [response|]; simpl;
      [|exists []; rewrite app_nil_r; split; [reflexivity|simpl; lia]].
    destruct (status_code response =? 200); simpl.
    - exists []. rewrite app_nil_r. split; [reflexivity|simpl; lia].
    - eexists [_]. split; [reflexivity|simpl; lia]. }
  destruct (find_audio_links_frame url_to_scrape w) as (He & Hf & Ho & Ht).
  unfold main, bind.
  destruct (find_audio_links url_to_scrape w) as [w1 [e|links]];
    simpl in *.
  - rewrite Hf, He, Ho, Ht.
    split; [exists ""; reflexivity|]. split; [tauto|]. split; [exact Hout|].
    repeat split.
  - destruct links as [|item rest].
    + simpl. rewrite Hf, He, Ho, Ht.
      split; [exists ""; reflexivity|]. split; [tauto|].
      split; [exact Hout|]. repeat split.
    + rewrite for_each_process_item.
      destruct (process_item_stores item w1) as [Hpo Hpt].
      split.
      { exists (local_path_of item). intros path Hne.
        rewrite process_item_files by exact Hne. rewrite Hf. reflexivity. }
      split.
      { intros path Hsome. apply process_item_keeps_files.
        rewrite Hf. exact Hsome. }
      rewrite Hpo, Hpt, Ho, Ht. rewrite process_item_run.
      destruct (requests_get item); [destruct (can_open _)|]; simpl;
        (split; [exact Hout|]); rewrite He; repeat split.
Qed.
